(** * telegram-bridge: a delayed, cancellable message relay

    Shallow embedding of the relay's JavaScript sources
    (bridge, messageProcessor, telegramClient, googleTranslator, the
    translator factory and config) together with the properties checked
    against them.

    Conventions of the embedding:
    - a JavaScript string is the list of its UTF-16 code units;
    - a [Set] is the list of its members in insertion order (what
      [Array.from] enumerates), a [Map] is a [gmap];
    - an [async] method whose outcome depends on the network takes that
      outcome as an argument (an oracle for the awaited call) and returns a
      [Result]: either [Returns v] or [Throws e];
    - a handler (an update, a timer callback) is one step of the model: it
      runs from its start to its end, the awaited outcomes being given;
      what other handlers do to the bridge while it awaits is not
      modelled;
    - a [while] loop whose end is not plain takes an amount of fuel, one
      unit for each iteration, and gives [None] when the fuel runs out
      before the loop ends;
    - logging is not modelled: no logger call changes a value or the
      control flow. *)

From Stdlib Require Import ZArith NArith Ascii String List Lia Bool.
From stdpp Require Import prelude gmap strings pretty.

Set Default Proof Using "Type".
Open Scope N_scope.

(* ================================================================= *)
(** * The model *)
(* ================================================================= *)

(* ----------------------------------------------------------------- *)
(** ** The fragment of JavaScript the sources rely on *)
(* ----------------------------------------------------------------- *)

Module JS.

(** A string: UTF-16 code units, each below 65536. *)
Abbreviation str := (list N).

(** A string literal of the source (ASCII only in this repository). *)
Definition lit (s : string) : str := N_of_ascii <$> list_ascii_of_string s.
Global Arguments lit : simpl never.

(** ToBoolean on a string: only the empty string is falsy. *)
Definition truthy (s : str) : bool :=
  match s with [] => false | _ :: _ => true end.

(** ToBoolean on a number that is an integer: only zero is falsy. *)
Definition truthyNum (n : Z) : bool := negb (n =? 0)%Z.

(** [a || b] on strings. *)
Definition orElse (a b : str) : str := if truthy a then a else b.

(** [String(n)] and template interpolation of an integer. *)
Definition numToStr (n : Z) : str := lit (pretty n).
Global Arguments numToStr : simpl never.

(** WhiteSpace and LineTerminator code units, as [String.prototype.trim]
    strips them. *)
Definition isWhiteSpace (c : N) : bool :=
  ((9 <=? c) && (c <=? 13)) || (c =? 32) || (c =? 160) || (c =? 5760)
  || ((8192 <=? c) && (c <=? 8202)) || (c =? 8232) || (c =? 8233)
  || (c =? 8239) || (c =? 8287) || (c =? 12288) || (c =? 65279).

Fixpoint trimStart (s : str) : str :=
  match s with
  | [] => []
  | c :: s' => if isWhiteSpace c then trimStart s' else s
  end.

Definition trimEnd (s : str) : str := reverse (trimStart (reverse s)).

Definition trim (s : str) : str := trimEnd (trimStart s).

Fixpoint startsWith (s p : str) : bool :=
  match p, s with
  | [], _ => true
  | _ :: _, [] => false
  | c :: p', d :: s' => (c =? d) && startsWith s' p'
  end.

(** [s.includes(p)]. *)
Fixpoint includes (s p : str) : bool :=
  startsWith s p ||
  match s with
  | [] => false
  | _ :: s' => includes s' p
  end.

(** [s.replace(p, r)] for a string pattern: the first occurrence only. *)
Fixpoint replace (s p r : str) : str :=
  if startsWith s p then r ++ drop (length p) s
  else match s with
       | [] => []
       | c :: s' => c :: replace s' p r
       end.

(** [parts.join(sep)]. *)
Fixpoint join (sep : str) (parts : list str) : str :=
  match parts with
  | [] => []
  | [p] => p
  | p :: rest => p ++ sep ++ join sep rest
  end.

(** An [Error] object: every error has a [message]; Telegram API errors
    also carry a [description]. *)
Record Error := mkError { message : str; description : option str }.

Definition newError (msg : str) : Error :=
  {| message := msg; description := None |}.

(** Completion of a call: a value or a thrown error (a rejected promise,
    for an [async] function). *)
Inductive Result (A : Type) : Type :=
| Returns (a : A)
| Throws (e : Error).
Arguments Returns {A} a.
Arguments Throws {A} e.

(** Sequencing: a thrown error skips what follows, up to the enclosing
    [catch]. *)
#[global] Instance Result_ret : MRet Result := fun A a => Returns a.
#[global] Instance Result_bind : MBind Result := fun A B k r =>
  match r with
  | Returns a => k a
  | Throws e => Throws e
  end.

(** [try { body } catch (e) { handler(e) }]. *)
Definition tryCatch {A} (body : Result A) (handler : Error -> Result A)
    : Result A :=
  match body with
  | Returns a => Returns a
  | Throws e => handler e
  end.

(** [String.prototype.toLowerCase] follows the Unicode case tables of the
    engine; the development is parametric in it. *)
Class Host := { toLowerCase : str -> str }.

(** A [Set] of strings, in insertion order. *)
Abbreviation StrSet := (list (list N)).

Definition has (s : StrSet) (k : str) : bool := bool_decide (k ∈ s).

(** [s.add(k)]: a member keeps its place, a new key goes last. *)
Definition add (s : StrSet) (k : str) : StrSet :=
  if has s k then s else s ++ [k].

(** [arr.slice(-n)]: the last [n] elements, all of them when there are
    fewer. *)
Definition sliceLast {A} (n : N) (arr : list A) : list A :=
  drop (length arr - N.to_nat n) arr.

(** [s.size] and [arr.length]. *)
Definition sizeOf {A} (s : list A) : N := N.of_nat (length s).

(** The delay a timer of Node runs with, for [setTimeout(callback, after)]
    with [after] an integer: [after] itself when it is between 1 and
    2^31 - 1, and 1 otherwise. *)
Definition timerDelay (after : Z) : N :=
  if (1 <=? after)%Z && (after <=? 2147483647)%Z then Z.to_N after else 1.

(** ToBoolean on a value that is a string or [undefined]. *)
Definition truthyOpt (v : option str) : bool :=
  match v with
  | Some s => truthy s
  | None => false
  end.

(** [v || d], for [v] a string or [undefined]. *)
Definition orDefault (v : option str) (d : str) : str :=
  match v with
  | Some s => orElse s d
  | None => d
  end.

(** [s.substring(a, b)] for indices that are not negative: both are
    capped at the length, and the smaller one is where the result
    starts. *)
Definition substring (s : str) (a b : N) : str :=
  let a := N.min a (sizeOf s) in
  let b := N.min b (sizeOf s) in
  take (N.to_nat (N.max a b - N.min a b)) (drop (N.to_nat (N.min a b)) s).

(** [s.slice(start, end)] for integer indices: a negative index counts
    from the end of the string; the result is empty when it would end
    before it starts. *)
Definition slice (s : str) (start end_ : Z) : str :=
  let len := Z.of_nat (length s) in
  let from :=
    if (start <? 0)%Z then Z.max (len + start) 0 else Z.min start len in
  let to := if (end_ <? 0)%Z then Z.max (len + end_) 0 else Z.min end_ len in
  take (Z.to_nat (to - from)) (drop (Z.to_nat from) s).

Definition isDigit (c : N) : bool := (48 <=? c) && (c <=? 57).

Fixpoint digitsPrefix (s : str) : str :=
  match s with
  | [] => []
  | c :: s' => if isDigit c then c :: digitsPrefix s' else []
  end.

Definition digitsValue (ds : str) : Z :=
  fold_left (fun acc c => 10 * acc + (Z.of_N c - 48))%Z ds 0%Z.

(** [parseInt(s, 10)]: leading white space and one sign are skipped, the
    digits that follow are read up to the first other code unit; [None]
    is [NaN], the result when no digit is there. The value is the exact
    integer: the engine rounds an integer beyond 2^53 to a double, which
    the model does not. *)
Definition parseInt10 (s : str) : option Z :=
  let s := trimStart s in
  let '(sign, s) :=
    match s with
    | 45 :: s' => ((-1)%Z, s')
    | 43 :: s' => (1%Z, s')
    | _ => (1%Z, s)
    end in
  match digitsPrefix s with
  | [] => None
  | ds => Some (sign * digitsValue ds)%Z
  end.

End JS.

Import JS.

(* ----------------------------------------------------------------- *)
(** ** src/config.js: the settings the relay reads *)
(* ----------------------------------------------------------------- *)

Module Config.

Record t := mk {
  sourceChatId : str;
  destinationChatId : str;
  messageDelayMs : Z;
  translationEnabled : bool;
  translationProvider : str;
  translationFallbackProvider : str;
  translationSourceLang : str;
  translationTargetLang : str;
  translationShowOriginal : bool;
  translationMaxLength : Z;
  googleTranslateApiKey : str;
}.

(** The object as the constructor fills it from [process.env]. The three
    required variables are strings or [undefined] ([None]); a number read
    by [parseInt] is an integer or [NaN] ([None]); [httpProxy] is a string
    or [null] ([None]). *)
Module Loaded.

Record t := mk {
  botToken : option str;
  sourceChatId : option str;
  destinationChatId : option str;
  logLevel : str;
  pollIntervalMs : option Z;
  httpProxy : option str;
  messageDelayMs : option Z;
  translationEnabled : bool;
  translationProvider : str;
  translationFallbackProvider : str;
  translationSourceLang : str;
  translationTargetLang : str;
  translationShowOriginal : bool;
  translationMaxLength : option Z;
  googleTranslateApiKey : str;
  googleTranslateProjectId : str;
}.

End Loaded.

(** [process.env] after [dotenv] has filled it: a variable is a string or
    is not set. *)
Definition Env := gmap string str.

(** [Number(s)] follows the numeric-literal grammar and the rounding of
    the engine; the development is parametric in the test
    [!isNaN(Number(s)) && isFinite(Number(s))]. *)
Class Numbers := { isFiniteNumber : str -> bool }.

Section Loading.
Context `{Host} `{Numbers}.

(** [toBool(value, defaultValue)]. *)
Definition toBool (value : option str) (defaultValue : bool) : bool :=
  match value with
  | None => defaultValue
  | Some v =>
      let lowered := trim (toLowerCase v) in
      bool_decide
        (lowered ∈ [lit "true"; lit "1"; lit "yes"; lit "y"; lit "on"])
  end.

(** The required variables, as [validate] lists them. *)
Definition required (self : Loaded.t) : list (str * option str) :=
  [(lit "TELEGRAM_BOT_TOKEN", Loaded.botToken self);
   (lit "TELEGRAM_SOURCE_CHAT_ID", Loaded.sourceChatId self);
   (lit "TELEGRAM_DESTINATION_CHAT_ID", Loaded.destinationChatId self)].

Definition isValidChatId (chatId : str) : bool :=
  if startsWith chatId (lit "@") then true else isFiniteNumber chatId.

(** [validate()]: it returns or throws. The chats are tested once they
    are known to be strings: a chat that is not set is among the
    missing. *)
Definition validate (self : Loaded.t) : Result unit :=
  let missing := filter (fun r => truthyOpt r.2 = false) (required self) in
  if (0 <? sizeOf missing)
  then
    Throws (newError (lit "Missing required environment variables: "
                      ++ join (lit ", ") (missing.*1)))
  else if negb (isValidChatId (default [] (Loaded.sourceChatId self)))
  then
    Throws (newError (lit "TELEGRAM_SOURCE_CHAT_ID must be a numeric ID or channel username (starting with @)"))
  else if negb (isValidChatId (default [] (Loaded.destinationChatId self)))
  then
    Throws (newError (lit "TELEGRAM_DESTINATION_CHAT_ID must be a numeric ID or channel username (starting with @)"))
  else if Loaded.translationEnabled self
          && negb (truthy (Loaded.translationProvider self))
  then
    Throws (newError (lit "TRANSLATION_PROVIDER must be set when translation is enabled"))
  else Returns ().

(** The constructor: the fields are read from the environment, then the
    object is validated. *)
Definition new (env : Env) : Result Loaded.t :=
  let self :=
    {| Loaded.botToken := env !! "TELEGRAM_BOT_TOKEN"%string;
       Loaded.sourceChatId := env !! "TELEGRAM_SOURCE_CHAT_ID"%string;
       Loaded.destinationChatId :=
         env !! "TELEGRAM_DESTINATION_CHAT_ID"%string;
       Loaded.logLevel := orDefault (env !! "LOG_LEVEL"%string) (lit "info");
       Loaded.pollIntervalMs :=
         parseInt10 (orDefault (env !! "POLL_INTERVAL_MS"%string) (lit "1000"));
       Loaded.httpProxy :=
         if truthyOpt (env !! "HTTP_PROXY"%string)
         then env !! "HTTP_PROXY"%string else None;
       Loaded.messageDelayMs :=
         parseInt10 (orDefault (env !! "MESSAGE_DELAY_MS"%string) (lit "30000"));
       Loaded.translationEnabled :=
         toBool (env !! "TRANSLATION_ENABLED"%string) false;
       Loaded.translationProvider :=
         orDefault (env !! "TRANSLATION_PROVIDER"%string) (lit "google");
       Loaded.translationFallbackProvider :=
         orDefault (env !! "TRANSLATION_FALLBACK_PROVIDER"%string)
           (lit "google");
       Loaded.translationSourceLang :=
         orDefault (env !! "TRANSLATION_SOURCE_LANG"%string) (lit "zh");
       Loaded.translationTargetLang :=
         orDefault (env !! "TRANSLATION_TARGET_LANG"%string) (lit "en");
       Loaded.translationShowOriginal :=
         toBool (env !! "TRANSLATION_SHOW_ORIGINAL"%string) false;
       Loaded.translationMaxLength :=
         parseInt10
           (orDefault (env !! "TRANSLATION_MAX_LENGTH"%string) (lit "4000"));
       Loaded.googleTranslateApiKey :=
         orDefault (env !! "GOOGLE_TRANSLATE_API_KEY"%string) [];
       Loaded.googleTranslateProjectId :=
         orDefault (env !! "GOOGLE_TRANSLATE_PROJECT_ID"%string) [] |} in
  _ ← validate self;
  Returns self.

End Loading.

End Config.

(* ----------------------------------------------------------------- *)
(** ** src/translators/googleTranslator.js *)
(* ----------------------------------------------------------------- *)

Module GoogleTranslator.

Record t := mk {
  apiKey : str;
  defaultSourceLang : str;
  defaultTargetLang : str;
  maxTextLength : Z;
}.

(** The constructor reads its fields from the configuration. *)
Definition new (config : Config.t) : t :=
  {| apiKey := Config.googleTranslateApiKey config;
     defaultSourceLang := Config.translationSourceLang config;
     defaultTargetLang := Config.translationTargetLang config;
     maxTextLength := Config.translationMaxLength config |}.

(** The character class of [chineseRegex]: U+4E00..U+9FFF, U+3400..U+4DBF
    and U+F900..U+FAFF, matched against one code unit (the regular
    expression has no [u] flag). *)
Definition chineseRegex (c : N) : bool :=
  ((0x4e00 <=? c) && (c <=? 0x9fff))
  || ((0x3400 <=? c) && (c <=? 0x4dbf))
  || ((0xf900 <=? c) && (c <=? 0xfaff)).

Definition containsChinese (text : str) : bool := existsb chineseRegex text.

Record Segment := mkSegment { text : str; isChinese : bool }.

(** The variables of the loop of [splitIntoSegments]. [currentIsChinese]
    is [None] for JavaScript's [null]. *)
Record SplitState := mkSplit {
  segments : list Segment;
  currentSegment : str;
  currentIsChinese : option bool;
}.

(** One iteration of the [for] loop, on the code unit [char]. *)
Definition splitStep (st : SplitState) (char : N) : SplitState :=
  let isCh := chineseRegex char in
  let flush :=
    match currentIsChinese st with
    | Some cur => negb (eqb cur isCh)
    | None => false
    end in
  let segs :=
    if flush
    then segments st ++
         [mkSegment (currentSegment st) (default false (currentIsChinese st))]
    else segments st in
  let cur := if flush then [] else currentSegment st in
  {| segments := segs;
     currentSegment := cur ++ [char];
     currentIsChinese := Some isCh |}.

Definition splitIntoSegments (text : str) : list Segment :=
  let st := fold_left splitStep text (mkSplit [] [] None) in
  if truthy (currentSegment st)
  then segments st ++
       [mkSegment (currentSegment st) (default false (currentIsChinese st))]
  else segments st.

(** What one HTTP exchange with the translation API came to, as
    [translateChunk] distinguishes it. *)
Inductive Exchange :=
| FetchRejected (e : Error)          (* the request itself failed *)
| HttpError (status : N) (body : str) (* [response.ok] is false *)
| InvalidJson (parseMessage : str)   (* [JSON.parse] threw *)
| Parsed (translatedText : option str).
  (* [json?.data?.translations?.[0]?.translatedText], [None] when absent *)

Definition translateChunk (x : Exchange) : Result str :=
  match x with
  | FetchRejected e => Throws e
  | HttpError status body =>
      Throws (newError (lit "Google translate failed: "
                        ++ numToStr (Z.of_N status) ++ lit " " ++ body))
  | InvalidJson m =>
      Throws (newError (lit "Invalid JSON response from Google translate: " ++ m))
  | Parsed None => Throws (newError (lit "Google translate returned no result"))
  | Parsed (Some t) =>
      if truthy t then Returns t
      else Throws (newError (lit "Google translate returned no result"))
  end.

(** The API as the backend sees it: the exchange that answers the [n]-th
    request of a call of [translate], for the chunk [q] with the given
    source and target language. *)
Definition Api := nat -> str -> str -> str -> Exchange.

(** The loop over the segments: Chinese segments go through
    [translateChunk], the others are pushed as they are; the first failing
    chunk ends the loop. *)
Fixpoint translateSegments (api : Api) (sourceLang targetLang : str)
    (n : nat) (segs : list Segment) : Result (list str) :=
  match segs with
  | [] => Returns []
  | seg :: rest =>
      if isChinese seg
      then
        translated ← translateChunk (api n (text seg) sourceLang targetLang);
        more ← translateSegments api sourceLang targetLang (S n) rest;
        Returns (translated :: more)
      else
        more ← translateSegments api sourceLang targetLang n rest;
        Returns (text seg :: more)
  end.

Definition translate (self : t) (api : Api) (text sourceLang targetLang : str)
    : Result str :=
  if negb (truthy (apiKey self))
  then Throws (newError (lit "GOOGLE_TRANSLATE_API_KEY is not set"))
  else
    let safeText := orElse text [] in
    if negb (truthy (trim safeText)) then Returns safeText
    else
      let finalSourceLang := orElse sourceLang (defaultSourceLang self) in
      let finalTargetLang := orElse targetLang (defaultTargetLang self) in
      if negb (containsChinese safeText) then Returns safeText
      else
        let segments := splitIntoSegments safeText in
        translatedSegments ←
          translateSegments api finalSourceLang finalTargetLang 0 segments;
        Returns (join [] translatedSegments).

(** The [while] loop of [splitIntoChunks], from the values [start] and
    [chunks] have when the condition is tested. Each iteration uses one
    unit of [fuel]; the result is [None] when the loop has not ended after
    [fuel] iterations. *)
Fixpoint chunkLoop (fuel : nat) (text : str) (maxLength start : Z)
    (chunks : list str) : option (list str) :=
  if (start <? Z.of_nat (length text))%Z
  then
    match fuel with
    | O => None
    | S fuel =>
        let end_ := Z.min (start + maxLength) (Z.of_nat (length text)) in
        chunkLoop fuel text maxLength end_ (chunks ++ [slice text start end_])
    end
  else Some chunks.

(** [splitIntoChunks(text, maxLength)] for [maxLength] an integer or [NaN]
    ([None]). *)
Definition splitIntoChunks (fuel : nat) (text : str) (maxLength : option Z)
    : option (list str) :=
  match maxLength with
  | None => Some [text]
  | Some m =>
      if (m =? 0)%Z || (Z.of_nat (length text) <=? m)%Z then Some [text]
      else chunkLoop fuel text m 0 []
  end.

End GoogleTranslator.

(* ----------------------------------------------------------------- *)
(** ** src/translator.js and src/translators/factory.js *)
(* ----------------------------------------------------------------- *)

Module Translator.

(** The interface: [translate(text, sourceLang, targetLang)], a promise of
    the translated text. An object of the interface is modelled by the
    outcome of its method on each request. *)
Definition t := str -> str -> str -> Result str.

(** The base class. *)
Definition base : t :=
  fun _ _ _ => Throws (newError (lit "translate() not implemented")).

End Translator.

Module CompositeTranslator.

Record t := mk {
  primary : option Translator.t;
  fallback : option Translator.t;
}.

(** Which backend a call went to. *)
Inductive Backend := Primary | Fallback.

(** [translate] returns the backends it called, in call order, and its
    completion. *)
Definition translate (self : t) (text sourceLang targetLang : str)
    : list Backend * Result str :=
  match primary self with
  | None => ([], Throws (newError (lit "No primary translator configured")))
  | Some p =>
      match p text sourceLang targetLang with
      | Returns r => ([Primary], Returns r)
      | Throws primaryErr =>
          match fallback self with
          | Some f =>
              match f text sourceLang targetLang with
              | Returns r => ([Primary; Fallback], Returns r)
              | Throws fallbackErr => ([Primary; Fallback], Throws fallbackErr)
              end
          | None => ([Primary], Throws primaryErr)
          end
      end
  end.

(** A composite seen through the [Translator] interface. *)
Definition asTranslator (self : t) : Translator.t :=
  fun text sourceLang targetLang => (translate self text sourceLang targetLang).2.

Section Factory.
Context `{Host}.

(** [createTranslator(config, logger)]; [None] is JavaScript's [null]. The
    two Google backends talk to the API through [api1] and [api2]. *)
Definition createTranslator (config : Config.t)
    (api1 api2 : GoogleTranslator.Api) : Result (option t) :=
  if negb (Config.translationEnabled config) then Returns None
  else
    let provider := toLowerCase (orElse (Config.translationProvider config) []) in
    let fallback :=
      toLowerCase (orElse (Config.translationFallbackProvider config) []) in
    let primaryTranslator :=
      if bool_decide (provider = lit "google")
      then Some (GoogleTranslator.translate (GoogleTranslator.new config) api1)
      else None in
    let fallbackTranslator :=
      if bool_decide (fallback = lit "google")
      then Some (GoogleTranslator.translate (GoogleTranslator.new config) api2)
      else None in
    match primaryTranslator with
    | None =>
        Throws (newError (lit "Unsupported translation provider: "
                          ++ orElse provider (lit "none")))
    | Some _ => Returns (Some (mk primaryTranslator fallbackTranslator))
    end.

End Factory.

End CompositeTranslator.

(* ----------------------------------------------------------------- *)
(** ** src/messageProcessor.js *)
(* ----------------------------------------------------------------- *)

(** The normalized message the bridge hands to the processor. *)
Module BridgeMessage.

Record t := mk {
  id : Z;
  chatId : str;
  author : str;
  text : str;
  replyToId : option Z;   (* [None] is [null] *)
  timestamp : Z;
}.

End BridgeMessage.

Module MessageProcessor.

Record t := mk {
  translator : option Translator.t;   (* [options.translator || null] *)
  config : option Config.t;           (* [options.config], possibly absent *)
}.

(** [this.config?.getTranslationEnabled()] and
    [this.config?.getTranslationShowOriginal()], as conditions. *)
Definition translationEnabled (self : t) : bool :=
  match config self with
  | Some c => Config.translationEnabled c
  | None => false
  end.

Definition translationShowOriginal (self : t) : bool :=
  match config self with
  | Some c => Config.translationShowOriginal c
  | None => false
  end.

Definition configSourceLang (self : t) : str :=
  match config self with Some c => Config.translationSourceLang c | None => [] end.

Definition configTargetLang (self : t) : str :=
  match config self with Some c => Config.translationTargetLang c | None => [] end.

Definition newline : str := [10].

(** The text that goes after the author: the translation when one is asked
    for and obtained, the source text otherwise. *)
Definition outputText (self : t) (text : str) : str :=
  match translationEnabled self, translator self with
  | true, Some tr =>
      match tr text (configSourceLang self) (configTargetLang self) with
      | Returns translated => translated
      | Throws _ => text
      end
  | _, _ => text
  end.

(** The reply line put before the text, when [replyToId] is truthy. *)
Definition replyPrefix (replyToId : option Z) : str :=
  match replyToId with
  | Some n =>
      if truthyNum n
      then lit "Replying to message " ++ numToStr n ++ newline
      else []
  | None => []
  end.

(** [process(bridgeMessage)]. The first component is the message object
    after the call (the method only reads it), the second the completion
    of the promise. *)
Definition process (self : t) (bridgeMessage : BridgeMessage.t)
    : BridgeMessage.t * Result str :=
  let author := BridgeMessage.author bridgeMessage in
  let text := BridgeMessage.text bridgeMessage in
  let replyToId := BridgeMessage.replyToId bridgeMessage in
  let authorDisplay := orElse author (lit "Unknown") in
  let output := outputText self text in
  let formattedText := lit "[From CN] " ++ authorDisplay ++ lit ": " ++ output in
  let formattedText :=
    if translationShowOriginal self && translationEnabled self
    then formattedText ++ newline ++ lit "Original: " ++ text
    else formattedText in
  let formattedText := replyPrefix replyToId ++ formattedText in
  (bridgeMessage, Returns formattedText).

(** [shouldProcess(bridgeMessage)], as a condition. *)
Definition shouldProcess (bridgeMessage : BridgeMessage.t) : bool :=
  truthy (BridgeMessage.text bridgeMessage)
  && (0 <? length (trim (BridgeMessage.text bridgeMessage)))%nat.

End MessageProcessor.

(* ----------------------------------------------------------------- *)
(** ** src/telegramClient.js *)
(* ----------------------------------------------------------------- *)

Module TelegramClient.

Record t := mk {
  config : Config.t;
  bot : bool;          (* whether [this.bot] is set, that is, not [null] *)
  isRunning : bool;
}.

Definition new (config : Config.t) : t :=
  {| config := config; bot := false; isRunning := false |}.

Definition initialize (self : t) : t :=
  {| config := config self; bot := true; isRunning := isRunning self |}.

Section CheckMessageExists.
Context `{Host}.

(** The test of the [catch (forwardError)] branch on [fullError]. *)
Definition forwardSaysDeleted (fullError : str) : bool :=
  includes fullError (lit "message to forward not found")
  || includes fullError (lit "message not found")
  || includes fullError (lit "bad request: message to forward not found")
  || includes fullError (lit "message_id_invalid").

(** [fullError] of the source, from the error of the failed forward. *)
Definition fullErrorOf (forwardError : Error) : str :=
  let errorMessage := orElse (message forwardError) [] in
  let errorDescription := orElse (default [] (description forwardError)) [] in
  toLowerCase (errorMessage ++ lit " " ++ errorDescription).

(** [checkMessageExists(chatId, messageId)]. [forward] is the completion of
    the test forward (the id of the forwarded copy), [deleteMessage] that
    of deleting the copy. *)
Definition checkMessageExists (self : t) (forward : Result Z)
    (deleteMessage : Z -> Result unit) : Result bool :=
  if negb (bot self) then Throws (newError (lit "Bot not initialized"))
  else
    tryCatch
      (tryCatch
         (forwardedMessage ← forward;
          _ ← tryCatch (deleteMessage forwardedMessage)
                (fun deleteError => Returns ());
          Returns true)
         (fun forwardError =>
            if forwardSaysDeleted (fullErrorOf forwardError)
            then Returns false
            else Returns true))
      (fun error => Returns true).

End CheckMessageExists.

(** What [sendMessage] asks of the Bot API and of the clock, in order: a
    call of [bot.telegram.sendMessage] or a pause. *)
Inductive Effect (Options : Type) : Type :=
| ApiSend (chatId text : str) (options : Options)
| Sleep (ms : N).
Arguments ApiSend {Options} chatId text options.
Arguments Sleep {Options} ms.

Definition maxLength : N := 4096.

Section SendMessage.
Context {Options : Type}.

(** The [while] loop of [sendMessage], from the values [offset] and
    [messages] have when the condition is tested. [telegram n chunk] is
    the completion of the [n]-th call of [bot.telegram.sendMessage] (the
    id of the message sent), which is for [chunk]. Each iteration uses one
    unit of [fuel]; the result is [None] when the loop has not ended after
    [fuel] iterations. *)
Fixpoint sendChunks (fuel : nat) (telegram : nat -> str -> Result Z)
    (chatId text : str) (options : Options) (offset : N) (messages : list Z)
    : option (list (Effect Options) * Result (list Z)) :=
  if offset <? sizeOf text
  then
    match fuel with
    | O => None
    | S fuel =>
        let chunk := substring text offset (offset + maxLength) in
        match telegram (length messages) chunk with
        | Throws e => Some ([ApiSend chatId chunk options], Throws e)
        | Returns message =>
            let messages := messages ++ [message] in
            let offset := offset + maxLength in
            let pause := if offset <? sizeOf text then [Sleep 100] else [] in
            match sendChunks fuel telegram chatId text options offset messages
            with
            | Some (effects, r) =>
                Some (ApiSend chatId chunk options :: pause ++ effects, r)
            | None => None
            end
        end
    end
  else Some ([], Returns messages).

(** [sendMessage(text, options)]: what it asks for, in order, and its
    completion. A long text returns [messages[0]], which is a message or
    [undefined] ([None]). *)
Definition sendMessage (fuel : nat) (self : t)
    (telegram : nat -> str -> Result Z) (text : str) (options : Options)
    : option (list (Effect Options) * Result (option Z)) :=
  if negb (bot self)
  then Some ([], Throws (newError (lit "Bot not initialized")))
  else
    let chatId := Config.destinationChatId (config self) in
    if maxLength <? sizeOf text
    then
      match sendChunks fuel telegram chatId text options 0 [] with
      | Some (effects, Returns messages) =>
          Some (effects, Returns (head messages))
      | Some (effects, Throws e) => Some (effects, Throws e)
      | None => None
      end
    else
      Some ([ApiSend chatId text options],
            message ← telegram 0%nat text; Returns (Some message)).

End SendMessage.

End TelegramClient.

(* ----------------------------------------------------------------- *)
(** ** src/bridge.js *)
(* ----------------------------------------------------------------- *)

(** The shape of the updates Telegraf hands to the bridge. *)
Module Telegram.

Record User := mkUser {
  is_bot : bool;
  first_name : option str;
  last_name : option str;
  username : option str;
}.

Record Chat := mkChat {
  chat_id : Z;
  chat_username : option str;
}.

Record Message := mkMessage {
  message_id : Z;
  chat : Chat;
  from : option User;
  text : option str;
  reply_to_message : option Z;   (* [message_id] of the message replied to *)
  date : Z;
}.

Record Context := mkContext { message : option Message }.

End Telegram.

Module Bridge.

(** An entry of [pendingMessages]. *)
Record Pending := mkPending {
  timeout : nat;                    (* the handle [setTimeout] returned *)
  bridgeMessage : BridgeMessage.t;
  formattedText : str;
}.

(** A timer of the event loop: when it is due and what the callback
    closes over. *)
Record Timer := mkTimer {
  due : N;
  messageKey : str;
  timerMessage : BridgeMessage.t;
  timerText : str;
}.

(** A call of [telegramClient.sendMessage]: the text, the [parse_mode]
    option and how the call completed (the id of the message sent). The
    record also says who called: the callback of the timer [viaTimer],
    which is for the key [forKey]. *)
Record SendCall := mkSendCall {
  forKey : str;
  viaTimer : nat;
  sentText : str;
  parseMode : option str;
  outcome : Result Z;
}.

(** The bridge object, with the part of the event loop it acts on: the
    clock, the live timers and the calls made to the client so far. *)
Record t := mk {
  config : Config.t;
  hasTranslator : bool;
  processedMessageIds : StrSet;
  pendingMessages : gmap str Pending;
  deletedMessageIds : StrSet;
  messageDelayMs : Z;
  now : N;
  timers : gmap nat Timer;
  nextTimer : nat;
  outbox : list SendCall;
}.

(** The constructor: [config.getMessageDelayMs() || 30000]. *)
Definition new (config : Config.t) (hasTranslator : bool) : t :=
  {| config := config;
     hasTranslator := hasTranslator;
     processedMessageIds := [];
     pendingMessages := ∅;
     deletedMessageIds := [];
     messageDelayMs :=
       if truthyNum (Config.messageDelayMs config)
       then Config.messageDelayMs config else 30000%Z;
     now := 0;
     timers := ∅;
     nextTimer := 0%nat;
     outbox := [] |}.

Definition optTruthy (o : option str) : bool :=
  match o with
  | Some s => truthy s
  | None => false
  end.

(** [normalizeMessage(ctx)]; [None] is [null]. *)
Definition normalizeMessage (self : t) (ctx : Telegram.Context)
    : option BridgeMessage.t :=
  match Telegram.message ctx with
  | None => None
  | Some message =>
      if negb (optTruthy (Telegram.text message)) then None
      else if match Telegram.from message with
              | Some from => Telegram.is_bot from
              | None => false
              end
      then None
      else
        let sourceChatId := Config.sourceChatId (config self) in
        let messageChatId := numToStr (Telegram.chat_id (Telegram.chat message)) in
        let chatIdMatches := bool_decide (messageChatId = sourceChatId) in
        let usernameMatches :=
          match Telegram.chat_username (Telegram.chat message) with
          | Some u =>
              truthy u && bool_decide (u = replace sourceChatId (lit "@") [])
          | None => false
          end in
        if negb chatIdMatches && negb usernameMatches then None
        else
          let author :=
            match Telegram.from message with
            | Some from =>
                if optTruthy (Telegram.first_name from)
                   || optTruthy (Telegram.last_name from)
                then join (lit " ")
                       (filter (fun s => truthy s = true)
                          (omap id [Telegram.first_name from;
                                    Telegram.last_name from]))
                else if optTruthy (Telegram.username from)
                then lit "@" ++ default [] (Telegram.username from)
                else lit "Unknown"
            | None => lit "Unknown"
            end in
          Some {| BridgeMessage.id := Telegram.message_id message;
                  BridgeMessage.chatId := messageChatId;
                  BridgeMessage.author := author;
                  BridgeMessage.text := default [] (Telegram.text message);
                  BridgeMessage.replyToId := Telegram.reply_to_message message;
                  BridgeMessage.timestamp := Telegram.date message |}
  end.

(** The key of a message: [`${chatId}:${id}`]. *)
Definition keyOf (bridgeMessage : BridgeMessage.t) : str :=
  BridgeMessage.chatId bridgeMessage ++ lit ":"
  ++ numToStr (BridgeMessage.id bridgeMessage).

(** [setTimeout(callback, delay)]: a new live timer; its handle is
    [nextTimer] of the state before. *)
Definition setTimeout (tm : Timer) (self : t) : t :=
  {| config := config self;
     hasTranslator := hasTranslator self;
     processedMessageIds := processedMessageIds self;
     pendingMessages := pendingMessages self;
     deletedMessageIds := deletedMessageIds self;
     messageDelayMs := messageDelayMs self;
     now := now self;
     timers := <[nextTimer self := tm]> (timers self);
     nextTimer := S (nextTimer self);
     outbox := outbox self |}.

(** [clearTimeout(handle)]. *)
Definition clearTimeout (handle : nat) (self : t) : t :=
  {| config := config self;
     hasTranslator := hasTranslator self;
     processedMessageIds := processedMessageIds self;
     pendingMessages := pendingMessages self;
     deletedMessageIds := deletedMessageIds self;
     messageDelayMs := messageDelayMs self;
     now := now self;
     timers := delete handle (timers self);
     nextTimer := nextTimer self;
     outbox := outbox self |}.

Definition setPending (f : gmap str Pending -> gmap str Pending) (self : t) : t :=
  {| config := config self;
     hasTranslator := hasTranslator self;
     processedMessageIds := processedMessageIds self;
     pendingMessages := f (pendingMessages self);
     deletedMessageIds := deletedMessageIds self;
     messageDelayMs := messageDelayMs self;
     now := now self;
     timers := timers self;
     nextTimer := nextTimer self;
     outbox := outbox self |}.

Definition setProcessed (f : StrSet -> StrSet) (self : t) : t :=
  {| config := config self;
     hasTranslator := hasTranslator self;
     processedMessageIds := f (processedMessageIds self);
     pendingMessages := pendingMessages self;
     deletedMessageIds := deletedMessageIds self;
     messageDelayMs := messageDelayMs self;
     now := now self;
     timers := timers self;
     nextTimer := nextTimer self;
     outbox := outbox self |}.

Definition setDeleted (f : StrSet -> StrSet) (self : t) : t :=
  {| config := config self;
     hasTranslator := hasTranslator self;
     processedMessageIds := processedMessageIds self;
     pendingMessages := pendingMessages self;
     deletedMessageIds := f (deletedMessageIds self);
     messageDelayMs := messageDelayMs self;
     now := now self;
     timers := timers self;
     nextTimer := nextTimer self;
     outbox := outbox self |}.

(** A call of [telegramClient.sendMessage] and its completion, recorded. *)
Definition recordSend (call : SendCall) (self : t) : t :=
  {| config := config self;
     hasTranslator := hasTranslator self;
     processedMessageIds := processedMessageIds self;
     pendingMessages := pendingMessages self;
     deletedMessageIds := deletedMessageIds self;
     messageDelayMs := messageDelayMs self;
     now := now self;
     timers := timers self;
     nextTimer := nextTimer self;
     outbox := outbox self ++ [call] |}.

Definition advance (ms : N) (self : t) : t :=
  {| config := config self;
     hasTranslator := hasTranslator self;
     processedMessageIds := processedMessageIds self;
     pendingMessages := pendingMessages self;
     deletedMessageIds := deletedMessageIds self;
     messageDelayMs := messageDelayMs self;
     now := now self + ms;
     timers := timers self;
     nextTimer := nextTimer self;
     outbox := outbox self |}.

(** [markMessageAsDeleted(messageKey)]. *)
Definition markMessageAsDeleted (messageKey : str) (self : t) : t :=
  let self := setDeleted (fun s => add s messageKey) self in
  match pendingMessages self !! messageKey with
  | Some pending =>
      setPending (delete messageKey) (clearTimeout (timeout pending) self)
  | None => self
  end.

(** [queueMessage(messageKey, bridgeMessage, formattedText)]: the timer is
    set first, then the entry is stored under the key. The timer is due
    after the delay [setTimeout] makes of [messageDelayMs]. *)
Definition queueMessage (messageKey : str) (bridgeMessage : BridgeMessage.t)
    (formattedText : str) (self : t) : t :=
  let timeout := nextTimer self in
  let self :=
    setTimeout {| due := now self + timerDelay (messageDelayMs self);
                  messageKey := messageKey;
                  timerMessage := bridgeMessage;
                  timerText := formattedText |} self in
  setPending
    (insert messageKey
       {| timeout := timeout;
          bridgeMessage := bridgeMessage;
          formattedText := formattedText |}) self.

(** The end of a delivery that succeeded: the key is recorded, the entry
    removed, and both sets are cut back to their last 1000 members. *)
Definition delivered (messageKey : str) (self : t) : t :=
  let self := setProcessed (fun s => add s messageKey) self in
  let self := setPending (delete messageKey) self in
  let self :=
    if 1000 <? sizeOf (processedMessageIds self)
    then setProcessed (sliceLast 1000) self else self in
  if 1000 <? sizeOf (deletedMessageIds self)
  then setDeleted (sliceLast 1000) self else self.

(** The handler of the outer [catch] of the callback. *)
Definition sendFailed (messageKey : str) (self : t) : t :=
  setPending (delete messageKey) self.

(** The test of the inner [catch] on the error of the first send. *)
Definition isParseError (error : Error) : bool :=
  truthy (message error) && includes (message error) (lit "parse").

(** The callback [queueMessage] hands to [setTimeout], for the timer [tm].
    [messageExists] is the completion of [checkMessageExists], [send] that
    of the send with [parse_mode: 'Markdown'], [resend] that of the send
    without options (made only after a parse error). [handle] is the
    timer's own handle; it only goes into the record of the sends. *)
Definition timerCallback (handle : nat) (tm : Timer)
    (messageExists : Result bool)
    (send resend : Result Z) (self : t) : t :=
  let messageKey := messageKey tm in
  let formattedText := timerText tm in
  if has (deletedMessageIds self) messageKey
  then setPending (delete messageKey) self
  else
    match messageExists with
    | Returns false => markMessageAsDeleted messageKey self
    | Returns true | Throws _ =>
        let self :=
          recordSend (mkSendCall messageKey handle formattedText
                        (Some (lit "Markdown")) send) self in
        match send with
        | Returns sentMessage => delivered messageKey self
        | Throws error =>
            if isParseError error
            then
              let self :=
                recordSend
                  (mkSendCall messageKey handle formattedText None resend)
                  self in
              match resend with
              | Returns sentMessage => delivered messageKey self
              | Throws error' => sendFailed messageKey self
              end
            else sendFailed messageKey self
        end
    end.

(** [handleUpdate(ctx)]; [tr] is how the translator answers this update. *)
Definition handleUpdate (ctx : Telegram.Context) (tr : Translator.t)
    (self : t) : t :=
  match normalizeMessage self ctx with
  | None => self
  | Some bridgeMessage =>
      let messageKey := keyOf bridgeMessage in
      if has (processedMessageIds self) messageKey then self
      else if negb (MessageProcessor.shouldProcess bridgeMessage) then self
      else
        let messageProcessor :=
          {| MessageProcessor.translator :=
               if hasTranslator self then Some tr else None;
             MessageProcessor.config := Some (config self) |} in
        match (MessageProcessor.process messageProcessor bridgeMessage).2 with
        | Returns formattedText =>
            queueMessage messageKey bridgeMessage formattedText self
        | Throws _ => self
        end
  end.

(** [stop()]: the timers of the pending entries are cleared, then the map. *)
Definition stop (self : t) : t :=
  let self :=
    map_fold (fun _ pending acc => clearTimeout (timeout pending) acc)
      self (pendingMessages self) in
  setPending (fun _ => ∅) self.

(** What the event loop can run next. *)
Inductive Event :=
| Update (ctx : Telegram.Context) (tr : Translator.t)
| Deleted (messageKey : str)
| Elapse (ms : N)
| Fire (handle : nat) (messageExists : Result bool) (send resend : Result Z)
| Stop.

(** A timer runs its callback once, when it is live and due. *)
Definition fire (handle : nat) (messageExists : Result bool)
    (send resend : Result Z) (self : t) : t :=
  match timers self !! handle with
  | Some tm =>
      if (due tm <=? now self)
      then timerCallback handle tm messageExists send resend
             (clearTimeout handle self)
      else self
  | None => self
  end.

Definition step (self : t) (ev : Event) : t :=
  match ev with
  | Update ctx tr => handleUpdate ctx tr self
  | Deleted messageKey => markMessageAsDeleted messageKey self
  | Elapse ms => advance ms self
  | Fire handle messageExists send resend =>
      fire handle messageExists send resend self
  | Stop => stop self
  end.

Definition run (self : t) (evs : list Event) : t := fold_left step evs self.

(** The sends made for a key, and those that succeeded. *)
Definition sendsFor (messageKey : str) (self : t) : list SendCall :=
  filter (fun c => forKey c = messageKey) (outbox self).

Definition isDelivery (c : SendCall) : bool :=
  match outcome c with Returns _ => true | Throws _ => false end.

Definition deliveriesFor (messageKey : str) (self : t) : nat :=
  length (filter (fun c => isDelivery c = true) (sendsFor messageKey self)).

(** The live timers whose callback is for a key. *)
Definition timersFor (messageKey : str) (self : t) : list nat :=
  (map_to_list (filter (fun it => Bridge.messageKey it.2 = messageKey)
                  (timers self))).*1.

End Bridge.

(* ================================================================= *)
(** * The vocabulary of the statements, and data for the examples *)
(* ================================================================= *)

(** A host whose [toLowerCase] maps [A]..[Z] to [a]..[z] and leaves the
    other code units alone; it agrees with JavaScript on ASCII text and
    serves to evaluate the definitions on examples. *)
Definition asciiLower (c : N) : N :=
  if (65 <=? c) && (c <=? 90) then c + 32 else c.

Definition asciiHost : Host := {| toLowerCase := map asciiLower |}.

(** The patterns [checkMessageExists] looks for in the error of a failed
    forward. *)
Definition notFoundPatterns : list str :=
  [lit "message to forward not found";
   lit "message not found";
   lit "bad request: message to forward not found";
   lit "message_id_invalid"].

Section FormatterVocabulary.
Import MessageProcessor.


End FormatterVocabulary.

Section SegmentationVocabulary.
Import GoogleTranslator.

(** A run: not empty, and all of one class. *)
Definition isRun (seg : Segment) : Prop :=
  text seg <> []
  /\ Forall (fun c => chineseRegex c = isChinese seg) (text seg).

(** Neighbouring segments are of different classes, so no run can be
    extended: the runs are maximal. *)
Fixpoint alternating (segs : list Segment) : Prop :=
  match segs with
  | s1 :: rest =>
      match rest with
      | s2 :: _ => isChinese s1 <> isChinese s2
      | [] => True
      end /\ alternating rest
  | [] => True
  end.

(** The segments of the text read so far: those pushed and the one being
    built. *)
Definition segmentsSoFar (st : SplitState) : list Segment :=
  if truthy (currentSegment st)
  then segments st ++
       [mkSegment (currentSegment st) (default false (currentIsChinese st))]
  else segments st.

Definition splitInvariant (st : SplitState) (prefix : str) : Prop :=
  concat (text <$> segmentsSoFar st) = prefix
  /\ Forall isRun (segmentsSoFar st)
  /\ alternating (segmentsSoFar st)
  /\ match currentIsChinese st with
     | None => currentSegment st = [] /\ segments st = []
     | Some _ => currentSegment st <> []
     end.

(** What a segment becomes in the output: a Chinese run is what some
    request to the API returned for it, another run is itself. *)
Definition rendered (api : Api) (sourceLang targetLang : str)
    (seg : Segment) (out : str) : Prop :=
  if isChinese seg
  then exists n, translateChunk (api n (text seg) sourceLang targetLang)
                 = Returns out
  else out = text seg.

End SegmentationVocabulary.

Section QueueVocabulary.
Import Bridge.

(** Whether the sends of a callback end in a delivery: the first send
    succeeds, or it fails on a parse error and the second succeeds. *)
Definition sendSucceeds (send resend : Result Z) : bool :=
  match send with
  | Returns _ => true
  | Throws error =>
      isParseError error
      && match resend with Returns _ => true | Throws _ => false end
  end.

(** The sends made by the callback of a timer. *)
Definition sendsVia (handle : nat) (s : Bridge.t) : list SendCall :=
  filter (fun c => viaTimer c = handle) (outbox s).

(** What holds of the timers in every state the bridge reaches: handles are
    handed out in increasing order; the timer of a pending entry is live
    and is for the entry's key; a timer that has sent is no longer live. *)
Definition wellFormed (s : Bridge.t) : Prop :=
  (forall h tm, timers s !! h = Some tm -> (h < nextTimer s)%nat)
  /\ (forall key pending,
        pendingMessages s !! key = Some pending ->
        exists tm, timers s !! timeout pending = Some tm /\ messageKey tm = key)
  /\ (forall c, c ∈ outbox s ->
        (viaTimer c < nextTimer s)%nat /\ timers s !! viaTimer c = None).




End QueueVocabulary.

Section ClientVocabulary.
Import TelegramClient.
Context {Options : Type}.

(** The calls of the API in the order they are made, with the pause of
    100 ms [sendMessage] makes between two of them. *)
Fixpoint paced (calls : list (Effect Options)) : list (Effect Options) :=
  match calls with
  | [] => []
  | c :: rest =>
      c :: match rest with
           | [] => []
           | _ :: _ => Sleep 100 :: paced rest
           end
  end.

(** The [i]-th piece of [maxLength] code units of a text. *)
Definition chunkAt (text : str) (i : nat) : str :=
  substring text (N.of_nat i * maxLength) (N.of_nat i * maxLength + maxLength).

End ClientVocabulary.

(** A digit or the minus sign: what the decimal form of an integer is made
    of. *)
Definition isNumeral (c : N) : bool := (c =? 45) || isDigit c.

Section RelayVocabulary.
Import Bridge.

(** The message processor of a bridge, for an update the translator
    answers as [tr]. *)
Definition processorOf (config : Config.t) (hasTranslator : bool)
    (tr : Translator.t) : MessageProcessor.t :=
  {| MessageProcessor.translator := if hasTranslator then Some tr else None;
     MessageProcessor.config := Some config |}.

(** A key and a text come from the history: one of its updates is a
    message the bridge accepts, with this key, for which the processor
    gives this text. *)
Definition relayedFrom (config : Config.t) (hasTranslator : bool)
    (history : list Event) (key text : str) : Prop :=
  exists ctx tr bm,
    Update ctx tr ∈ history
    /\ normalizeMessage (Bridge.new config hasTranslator) ctx = Some bm
    /\ MessageProcessor.shouldProcess bm = true
    /\ key = keyOf bm
    /\ (MessageProcessor.process (processorOf config hasTranslator tr) bm).2
       = Returns text.

(** The time that passes during a run. *)
Definition elapsed (evs : list Event) : N :=
  foldr (fun ev t => match ev with Elapse ms => ms + t | _ => t end) 0 evs.

(** The calls a callback makes, from the answers it gets. *)
Definition callsOf (handle : nat) (tm : Timer) (messageExists : Result bool)
    (send resend : Result Z) : list SendCall :=
  match messageExists with
  | Returns false => []
  | _ =>
      mkSendCall (messageKey tm) handle (timerText tm) (Some (lit "Markdown")) send
      :: match send with
         | Returns _ => []
         | Throws error =>
             if isParseError error
             then [mkSendCall (messageKey tm) handle (timerText tm) None resend]
             else []
         end
  end.

(** The calls of one callback: none; or one, with [parse_mode: 'Markdown'];
    or that one, failed on a parse error, and then one without options for
    the same key and text. *)
Definition oneDelivery (calls : list SendCall) : Prop :=
  match calls with
  | [] => True
  | [c] => parseMode c = Some (lit "Markdown")
  | [c1; c2] =>
      parseMode c1 = Some (lit "Markdown")
      /\ (exists e, outcome c1 = Throws e /\ isParseError e = true)
      /\ parseMode c2 = None
      /\ forKey c2 = forKey c1
      /\ sentText c2 = sentText c1
  | _ => False
  end.

End RelayVocabulary.

(** A configuration for the examples: source chat [-100], the default
    delay, translation from [zh] to [en] through Google. *)
Definition exampleConfig : Config.t :=
  {| Config.sourceChatId := lit "-100";
     Config.destinationChatId := lit "-200";
     Config.messageDelayMs := 30000;
     Config.translationEnabled := true;
     Config.translationProvider := lit "google";
     Config.translationFallbackProvider := lit "google";
     Config.translationSourceLang := lit "zh";
     Config.translationTargetLang := lit "en";
     Config.translationShowOriginal := false;
     Config.translationMaxLength := 4000;
     Config.googleTranslateApiKey := lit "key" |}.

Definition failingTranslator : Translator.t :=
  fun _ _ _ => Throws (newError (lit "Google translate failed: 503 ")).

Definition exampleMessage : BridgeMessage.t :=
  {| BridgeMessage.id := 5;
     BridgeMessage.chatId := lit "-100";
     BridgeMessage.author := lit "Li Wei";
     BridgeMessage.text := [20320; 22909];
     BridgeMessage.replyToId := None;
     BridgeMessage.timestamp := 1700000000 |}.

(** An update from the source chat of the examples: message [i], text
    [x], no sender. *)
Definition arrival (i : nat) : Bridge.Event :=
  Bridge.Update
    (Telegram.mkContext
       (Some (Telegram.mkMessage (Z.of_nat i) (Telegram.mkChat (-100) None)
                None (Some (lit "x")) None 0)))
    Translator.base.

(** The keys of messages 1 to [n] of the source chat. *)
Definition retractedKeys (n : nat) : list str :=
  (fun i => lit "-100:" ++ numToStr (Z.of_nat i)) <$> seq 1 n.

(** Round [i]: message [i + 1] arrives, the delay passes, its timer (the
    [i]-th the bridge has set) fires and the existence check says that
    the message is gone. *)
Definition goneRound (i : nat) : list Bridge.Event :=
  [arrival (S i); Bridge.Elapse 30000;
   Bridge.Fire i (Returns false) (Returns 0%Z) (Returns 0%Z)].

(** [n] rounds, for messages 1 to [n]. *)
Definition allGone (n : nat) : list Bridge.Event :=
  concat (goneRound <$> seq 0 n).

(** Where the bridge of the examples stands after [k] rounds. *)
Definition roundInvariant (k : nat) (s : Bridge.t) : Prop :=
  Bridge.config s = exampleConfig
  /\ Bridge.hasTranslator s = false
  /\ Bridge.processedMessageIds s = []
  /\ Bridge.messageDelayMs s = 30000%Z
  /\ Bridge.nextTimer s = k
  /\ Bridge.deletedMessageIds s = retractedKeys k.



(** A bridge that holds 1000 processed keys and 1001 tombstones, with the
    timer of message 2000 due. *)
Definition fullSets : Bridge.t :=
  {| Bridge.config := exampleConfig;
     Bridge.hasTranslator := false;
     Bridge.processedMessageIds := retractedKeys 1000;
     Bridge.pendingMessages := ∅;
     Bridge.deletedMessageIds := retractedKeys 1001;
     Bridge.messageDelayMs := 30000;
     Bridge.now := 30000;
     Bridge.timers :=
       {[ 0%nat :=
            Bridge.mkTimer 30000 (lit "-100:2000")
              (BridgeMessage.mk 2000 (lit "-100") (lit "Unknown") (lit "x")
                 None 0)
              (lit "[From CN] Unknown: x") ]};
     Bridge.nextTimer := 1;
     Bridge.outbox := [] |}.

(** Message 5 has arrived and waits in the queue. *)
Definition oneQueued : Bridge.t :=
  Bridge.run (Bridge.new exampleConfig false) [arrival 5].

(** An initialized client for the configuration of the examples. *)
Definition exampleClient : TelegramClient.t :=
  TelegramClient.initialize (TelegramClient.new exampleConfig).

(** A text of 5000 code units. *)
Definition longText : str := replicate (N.to_nat 5000) 97.

(** A Bot API that accepts every call: the [n]-th call returns the message
    [900 + n]. *)
Definition acceptingApi : nat -> str -> Result Z :=
  fun n _ => Returns (900 + Z.of_nat n)%Z.

(** A Bot API whose second call fails on the entities of the text. *)
Definition secondCallFails : nat -> str -> Result Z :=
  fun n _ =>
    match n with
    | 1%nat => Throws (newError (lit "Bad Request: can't parse entities"))
    | _ => Returns (900 + Z.of_nat n)%Z
    end.

(** The configuration of the examples without the API key. *)
Definition keylessConfig : Config.t :=
  {| Config.sourceChatId := lit "-100";
     Config.destinationChatId := lit "-200";
     Config.messageDelayMs := 30000;
     Config.translationEnabled := true;
     Config.translationProvider := lit "google";
     Config.translationFallbackProvider := lit "google";
     Config.translationSourceLang := lit "zh";
     Config.translationTargetLang := lit "en";
     Config.translationShowOriginal := false;
     Config.translationMaxLength := 4000;
     Config.googleTranslateApiKey := [] |}.

(** An update of the source chat: message 7, sent by Li Wei. *)
Definition signedContext : Telegram.Context :=
  Telegram.mkContext
    (Some (Telegram.mkMessage 7 (Telegram.mkChat (-100) None)
             (Some (Telegram.mkUser false (Some (lit "Li")) (Some (lit "Wei"))
                      None))
             (Some (lit "hello")) None 1700000000)).

(** The same message as an update that names no sender. *)
Definition unsignedContext : Telegram.Context :=
  Telegram.mkContext
    (Some (Telegram.mkMessage 7 (Telegram.mkChat (-100) None) None
             (Some (lit "hello")) None 1700000000)).

(** A host for which the finite numbers are the decimal integers, with or
    without a minus sign. It agrees with JavaScript on chat ids written
    that way and on those that are no numbers at all, and serves to
    evaluate the definitions on examples. *)
Definition integerNumbers : Config.Numbers :=
  {| Config.isFiniteNumber := fun s =>
       match s with
       | 45 :: ds => truthy ds && forallb isDigit ds
       | ds => truthy ds && forallb isDigit ds
       end |}.

(** The object the constructor fills when only the two chats are set. *)
Definition tokenlessSettings : Config.Loaded.t :=
  {| Config.Loaded.botToken := None;
     Config.Loaded.sourceChatId := Some (lit "-100");
     Config.Loaded.destinationChatId := Some (lit "@news");
     Config.Loaded.logLevel := lit "info";
     Config.Loaded.pollIntervalMs := Some 1000%Z;
     Config.Loaded.httpProxy := None;
     Config.Loaded.messageDelayMs := Some 30000%Z;
     Config.Loaded.translationEnabled := false;
     Config.Loaded.translationProvider := lit "google";
     Config.Loaded.translationFallbackProvider := lit "google";
     Config.Loaded.translationSourceLang := lit "zh";
     Config.Loaded.translationTargetLang := lit "en";
     Config.Loaded.translationShowOriginal := false;
     Config.Loaded.translationMaxLength := Some 4000%Z;
     Config.Loaded.googleTranslateApiKey := [];
     Config.Loaded.googleTranslateProjectId := [] |}.

(* ================================================================= *)
(** * Properties *)
(* ================================================================= *)

(* ----------------------------------------------------------------- *)
(** ** Strings and sets *)
(* ----------------------------------------------------------------- *)

Lemma truthy_true (s : str) : truthy s = true <-> s <> [].
Proof. destruct s; simpl; split; congruence. Qed.

Lemma truthy_false (s : str) : truthy s = false <-> s = [].
Proof. destruct s; simpl; split; congruence. Qed.

Lemma orElse_nil_r (s : str) : orElse s [] = s.
Proof. by destruct s. Qed.

Lemma orElse_truthy (a b : str) : a <> [] -> orElse a b = a.
Proof. by destruct a. Qed.

Lemma trimStart_blank (s : str) :
  forallb isWhiteSpace s = true -> trimStart s = [].
Proof.
  induction s as [|c s IH]; simpl; [done|].
  intros [Hc Hs]%andb_prop. rewrite Hc. auto.
Qed.

Lemma trim_blank (s : str) : forallb isWhiteSpace s = true -> trim s = [].
Proof. intros Hs. unfold trim. by rewrite trimStart_blank. Qed.

Lemma join_nil_concat (parts : list str) : join [] parts = concat parts.
Proof.
  induction parts as [|p [|q rest] IH]; simpl in *.
  - done.
  - by rewrite app_nil_r.
  - by rewrite IH.
Qed.

Lemma has_true (s : StrSet) (k : str) : has s k = true <-> k ∈ s.
Proof. unfold has. by rewrite bool_decide_eq_true. Qed.

Lemma has_false (s : StrSet) (k : str) : has s k = false <-> k ∉ s.
Proof. unfold has. by rewrite bool_decide_eq_false. Qed.

Lemma elem_of_add (s : StrSet) (k k' : str) : k' ∈ add s k <-> k' = k \/ k' ∈ s.
Proof.
  unfold add. destruct (has s k) eqn:Hk.
  - apply has_true in Hk. split; [auto|]. by intros [->|].
  - rewrite elem_of_app, list_elem_of_singleton. tauto.
Qed.

Lemma add_sizeOf (s : StrSet) (k : str) : sizeOf (add s k) <= sizeOf s + 1.
Proof.
  unfold sizeOf, add. destruct (has s k); [lia|].
  rewrite length_app. simpl. lia.
Qed.

Lemma sliceLast_sizeOf {A} (n : N) (arr : list A) :
  sizeOf (sliceLast n arr) = N.min n (sizeOf arr).
Proof. unfold sizeOf, sliceLast. rewrite length_drop. lia. Qed.

(** [slice(-n)] cuts a prefix off: what goes is the front of the array,
    what stays is its last [n] elements in their order. *)
Lemma sliceLast_split {A} (n : N) (arr : list A) :
  arr = take (length arr - N.to_nat n) arr ++ sliceLast n arr.
Proof. unfold sliceLast. by rewrite take_drop. Qed.

Lemma elem_of_sliceLast {A} (n : N) (arr : list A) (x : A) :
  x ∈ sliceLast n arr -> x ∈ arr.
Proof.
  intros Hx. rewrite (sliceLast_split n arr). apply elem_of_app. by right.
Qed.

Lemma snoc_not_nil {A} (l : list A) (x : A) : l ++ [x] <> [].
Proof. by destruct l. Qed.

Lemma lit_inj : Inj (=) (=) lit.
Proof.
  intros s1 s2 Heq. unfold lit in Heq.
  assert (Inj (=) (=) N_of_ascii) as Hinj.
  { intros a b Hab. by rewrite <- (ascii_N_embedding a), Hab, ascii_N_embedding. }
  apply (inj (fmap N_of_ascii)) in Heq.
  by rewrite <- (string_of_list_ascii_of_string s1), Heq,
    string_of_list_ascii_of_string.
Qed.

(** Different numbers are written differently, so different messages of a
    chat have different keys. *)
Lemma numToStr_inj : Inj (=) (=) numToStr.
Proof. intros n1 n2 Heq. unfold numToStr in Heq. by apply lit_inj, (inj pretty) in Heq. Qed.

(* ----------------------------------------------------------------- *)
(** ** The translation gateway: primary and fallback *)
(* ----------------------------------------------------------------- *)

Section Gateway.
Import CompositeTranslator.

(** X4. The factory never builds a gateway without a primary backend.
    With translation off it returns [null]. With translation on and a
    provider that is not [google] (in any case of the letters) it throws
    [Unsupported translation provider], naming the provider, or [none]
    for an empty one. With translation on and the provider [google] it
    returns a gateway whose primary is a Google backend, and whose
    fallback is a second Google backend exactly when the fallback
    provider is [google] too, and is absent otherwise. So a gateway it
    returns always has its primary. *)
Theorem createTranslator_has_primary `{Host} (config : Config.t)
    (api1 api2 : GoogleTranslator.Api) :
  let provider :=
    toLowerCase (orElse (Config.translationProvider config) []) in
  let fallback :=
    toLowerCase (orElse (Config.translationFallbackProvider config) []) in
  let google := GoogleTranslator.translate (GoogleTranslator.new config) in
  (Config.translationEnabled config = false ->
     createTranslator config api1 api2 = Returns None)
  /\ (Config.translationEnabled config = true ->
        provider <> lit "google" ->
        createTranslator config api1 api2
        = Throws (newError (lit "Unsupported translation provider: "
                            ++ orElse provider (lit "none"))))
  /\ (Config.translationEnabled config = true ->
        provider = lit "google" ->
        createTranslator config api1 api2
        = Returns (Some (CompositeTranslator.mk (Some (google api1))
                           (if bool_decide (fallback = lit "google")
                            then Some (google api2) else None))))
  /\ (forall gateway,
        createTranslator config api1 api2 = Returns (Some gateway) ->
        is_Some (primary gateway)).
Proof.
  cbn zeta. unfold createTranslator.
  destruct (Config.translationEnabled config); cbn [negb].
  - split; [done|]. split; [|split].
    + intros _ Hp. by rewrite bool_decide_eq_false_2.
    + intros _ Hp. by rewrite bool_decide_eq_true_2.
    + intros gateway. case_bool_decide; [|done].
      intros [= <-]. cbn. eauto.
  - split; [done|]. split; [done|]. split; [done|]. by intros gateway.
Qed.

(** C7. The gateway's [translate], for a gateway with its primary backend
    [p] and an optional fallback [fb]: the primary is called first; when it
    succeeds its result is returned and nothing else is called; when it
    fails and a fallback is configured the fallback is called next and its
    completion is the gateway's; when it fails and there is no fallback the
    primary's error is thrown; so the gateway fails only if the primary
    failed and the fallback, if any, failed as well. *)
Theorem composite_translate_failover (p : Translator.t)
    (fb : option Translator.t) (text sourceLang targetLang : str) :
  let self := CompositeTranslator.mk (Some p) fb in
  let out := translate self text sourceLang targetLang in
  (exists rest, out.1 = Primary :: rest)
  /\ (forall r, p text sourceLang targetLang = Returns r ->
        out = ([Primary], Returns r))
  /\ (forall e f, p text sourceLang targetLang = Throws e -> fb = Some f ->
        out = ([Primary; Fallback], f text sourceLang targetLang))
  /\ (forall e, p text sourceLang targetLang = Throws e -> fb = None ->
        out = ([Primary], Throws e))
  /\ (forall e, out.2 = Throws e ->
        exists e1, p text sourceLang targetLang = Throws e1
          /\ match fb with
             | Some f => f text sourceLang targetLang = Throws e
             | None => e = e1
             end).
Proof.
  simpl. unfold translate. simpl.
  destruct (p text sourceLang targetLang) as [r|e1] eqn:Hp.
  - split; [by eexists|]. split; [by intros ? [= <-]|].
    split; [done|]. split; [done|]. simpl. done.
  - split; [destruct fb as [f|]; [destruct (f _ _ _)|]; by eexists|].
    split; [done|].
    split; [intros e f [= <-] ->; by destruct (f _ _ _)|].
    split; [by intros e [= <-] ->|].
    intros e He. exists e1. split; [done|].
    destruct fb as [f|]; [destruct (f _ _ _); simpl in *|simpl in *];
      congruence.
Qed.

End Gateway.

(** The gateway the factory builds for the configuration of the examples,
    with an API that echoes what it is sent. *)
Lemma createTranslator_has_primary_witness :
  let api : GoogleTranslator.Api :=
    fun _ q _ _ => GoogleTranslator.Parsed (Some q) in
  let google :=
    GoogleTranslator.translate (GoogleTranslator.new exampleConfig) api in
  @CompositeTranslator.createTranslator asciiHost exampleConfig api api
  = Returns (Some (CompositeTranslator.mk (Some google) (Some google)))
  /\ is_Some (CompositeTranslator.primary
                (CompositeTranslator.mk (Some google) (Some google))).
Proof.
  destruct (@createTranslator_has_primary asciiHost exampleConfig
              (fun _ q _ _ => GoogleTranslator.Parsed (Some q))
              (fun _ q _ _ => GoogleTranslator.Parsed (Some q)))
    as (_ & _ & Hgoogle & Hprimary).
  split; [exact (Hgoogle eq_refl eq_refl)|].
  exact (Hprimary _ (Hgoogle eq_refl eq_refl)).
Defined.

(** A primary that fails and a fallback that answers. *)
Lemma composite_translate_failover_witness :
  CompositeTranslator.translate
    (CompositeTranslator.mk (Some failingTranslator)
       (Some (fun _ _ _ => Returns (lit "Hello"))))
    [20320; 22909] (lit "zh") (lit "en")
  = ([CompositeTranslator.Primary; CompositeTranslator.Fallback],
     Returns (lit "Hello")).
Proof.
  destruct (composite_translate_failover failingTranslator
              (Some (fun _ _ _ => Returns (lit "Hello")))
              [20320; 22909] (lit "zh") (lit "en"))
    as (_ & _ & Hfallback & _).
  exact (Hfallback _ _ eq_refl eq_refl).
Defined.


(* ----------------------------------------------------------------- *)
(** ** The content formatter *)
(* ----------------------------------------------------------------- *)

Section Formatter.
Import MessageProcessor.

(** C8. With translation enabled and a translator whose call fails, the
    formatter completes and its output carries the source text where the
    translation would be. *)
Theorem process_translation_failure (self : MessageProcessor.t)
    (tr : Translator.t) (m : BridgeMessage.t) (e : Error) :
  translationEnabled self = true ->
  translator self = Some tr ->
  tr (BridgeMessage.text m) (configSourceLang self) (configTargetLang self)
    = Throws e ->
  (process self m).2 =
    Returns (replyPrefix (BridgeMessage.replyToId m)
             ++ lit "[From CN] "
             ++ orElse (BridgeMessage.author m) (lit "Unknown")
             ++ lit ": " ++ BridgeMessage.text m
             ++ (if translationShowOriginal self
                 then newline ++ lit "Original: " ++ BridgeMessage.text m
                 else [])).
Proof.
  intros Hen Htr Hfail. unfold process, outputText. simpl.
  rewrite Hen, Htr, Hfail, andb_true_r.
  destruct (translationShowOriginal self); simpl;
    by rewrite <- ?app_assoc, ?app_nil_r.
Qed.

End Formatter.

Lemma process_translation_failure_witness :
  (MessageProcessor.process
     (MessageProcessor.mk (Some failingTranslator) (Some exampleConfig))
     exampleMessage).2
  = Returns (lit "[From CN] Li Wei: " ++ [20320; 22909]).
Proof.
  exact (process_translation_failure
           (MessageProcessor.mk (Some failingTranslator) (Some exampleConfig))
           failingTranslator exampleMessage
           (newError (lit "Google translate failed: 503 "))
           eq_refl eq_refl eq_refl).
Defined.

(** An event whose reply reference is message 0 gets no reply line: the
    test [if (replyToId)] takes 0 for no reference. No update gives such
    an event, as Telegram numbers the messages of a chat from 1. *)
Lemma process_reply_to_zero :
  let self := MessageProcessor.mk None None in
  let replyToZero :=
    BridgeMessage.mk 7 (lit "-100") (lit "Ann") (lit "hi") (Some 0%Z) 0 in
  (MessageProcessor.process self replyToZero).2
  = Returns (lit "[From CN] Ann: hi").
Proof. vm_compute. reflexivity. Qed.


(* ----------------------------------------------------------------- *)
(** ** The existence check of the client *)
(* ----------------------------------------------------------------- *)

Section ExistenceCheck.
Context `{Host}.
Import TelegramClient.

Lemma forwardSaysDeleted_patterns (fullError : str) :
  forwardSaysDeleted fullError = true
  <-> exists pattern,
        pattern ∈ notFoundPatterns /\ includes fullError pattern = true.
Proof.
  unfold forwardSaysDeleted, notFoundPatterns. rewrite !orb_true_iff. split.
  - intros [[[Hp|Hp]|Hp]|Hp]; eexists; (split; [|exact Hp]);
      rewrite !elem_of_cons; tauto.
  - intros (pattern & Hin & Hp).
    rewrite !elem_of_cons, elem_of_nil in Hin.
    destruct Hin as [->|[->|[->|[->|[]]]]]; tauto.
Qed.

Lemma fullErrorOf_joined (e : Error) :
  fullErrorOf e
  = toLowerCase (message e ++ lit " " ++ default [] (description e)).
Proof. unfold fullErrorOf. by rewrite !orElse_nil_r. Qed.

(** C10. On an initialized client [checkMessageExists] always returns: it
    returns [false] exactly when the test forward failed with an error
    whose message and description, joined by a space and lower-cased,
    contain one of the not-found patterns, and [true] in every other case:
    when the forward went through, whether the copy could be deleted or
    not, and when it failed with any other error. *)
Theorem checkMessageExists_never_raises (self : TelegramClient.t)
    (forward : Result Z) (deleteMessage : Z -> Result unit) :
  bot self = true ->
  exists b : bool,
    checkMessageExists self forward deleteMessage = Returns b
    /\ (b = false <->
        exists e pattern,
          forward = Throws e
          /\ pattern ∈ notFoundPatterns
          /\ includes
               (toLowerCase
                  (message e ++ lit " " ++ default [] (description e)))
               pattern = true)
    /\ (forall copy, forward = Returns copy -> b = true).
Proof.
  intros Hbot. unfold checkMessageExists. rewrite Hbot. simpl.
  destruct forward as [fwd|e]; simpl.
  - exists true. split; [by destruct (deleteMessage fwd)|].
    split; [|done]. split; [done|]. by intros (e & ? & ? & _).
  - destruct (forwardSaysDeleted (fullErrorOf e)) eqn:He; simpl.
    + exists false. split; [done|]. split; [|done]. split; [|done].
      intros _. apply forwardSaysDeleted_patterns in He as (pattern & ? & ?).
      exists e, pattern. by rewrite <- fullErrorOf_joined.
    + exists true. split; [done|]. split; [|done]. split; [done|].
      intros (e' & pattern & [= <-] & Hin & Hp).
      rewrite <- fullErrorOf_joined in Hp.
      assert (forwardSaysDeleted (fullErrorOf e) = true); [|congruence].
      apply forwardSaysDeleted_patterns. eauto.
Qed.

End ExistenceCheck.

(** Telegram answers the test forward of a deleted message with this
    error; the check says that the message is gone. *)
Lemma checkMessageExists_never_raises_witness :
  @TelegramClient.checkMessageExists asciiHost
    (TelegramClient.initialize (TelegramClient.new exampleConfig))
    (Throws (mkError (lit "400: Bad Request: message to forward not found")
               (Some (lit "Bad Request: message to forward not found"))))
    (fun _ => Returns ())
  = Returns false.
Proof.
  destruct (@checkMessageExists_never_raises asciiHost
              (TelegramClient.initialize (TelegramClient.new exampleConfig))
              (Throws (mkError
                         (lit "400: Bad Request: message to forward not found")
                         (Some (lit "Bad Request: message to forward not found"))))
              (fun _ => Returns ()) eq_refl)
    as (b & Hreturns & Hfalse & _).
  rewrite Hreturns. f_equal. apply Hfalse.
  eexists _, (lit "message to forward not found").
  split; [reflexivity|]. split; [by left|]. vm_compute. reflexivity.
Defined.

(** Errors that are not about the message leave the answer at [true]:
    here the chat itself is not found. *)
Example checkMessageExists_chat_not_found :
  @TelegramClient.checkMessageExists asciiHost
    (TelegramClient.initialize (TelegramClient.new exampleConfig))
    (Throws (mkError (lit "400: Bad Request: chat not found")
               (Some (lit "Bad Request: chat not found"))))
    (fun _ => Returns ())
  = Returns true.
Proof. vm_compute. reflexivity. Qed.

(* ----------------------------------------------------------------- *)
(** ** The Google backend: segmentation and passthrough *)
(* ----------------------------------------------------------------- *)

Section Segmentation.
Import GoogleTranslator.

Lemma alternating_snoc_same (l : list Segment) (a a' : Segment) :
  isChinese a' = isChinese a ->
  alternating (l ++ [a]) -> alternating (l ++ [a']).
Proof.
  intros Ha. induction l as [|s l IH]; simpl; [done|].
  intros [Hs Hl]. split; [|auto].
  destruct l; simpl in *; congruence.
Qed.

Lemma alternating_snoc_new (l : list Segment) (a b : Segment) :
  isChinese a <> isChinese b ->
  alternating (l ++ [a]) -> alternating (l ++ [a; b]).
Proof.
  intros Hab. induction l as [|s l IH]; simpl; [done|].
  intros [Hs Hl]. split; [|auto].
  destruct l; simpl in *; congruence.
Qed.

Lemma splitStep_invariant (st : SplitState) (prefix : str) (char : N) :
  splitInvariant st prefix ->
  splitInvariant (splitStep st char) (prefix ++ [char]).
Proof.
  destruct st as [segs cur [b|]]; unfold splitInvariant, segmentsSoFar;
    simpl; intros (Hcat & Hruns & Halt & Hcur).
  - (* a segment is being built *)
    apply truthy_true in Hcur as Ht. rewrite Ht in Hcat, Hruns, Halt.
    apply Forall_app in Hruns as [Hsegs Hlast].
    apply Forall_singleton in Hlast as [_ Hlast]. simpl in Hlast.
    destruct (eqb b (chineseRegex char)) eqn:Heq; simpl.
    + (* the same class: the segment grows *)
      apply eqb_prop in Heq. subst b.
      assert (truthy (cur ++ [char]) = true) as ->
        by (apply truthy_true, snoc_not_nil).
      split; [|split; [|split]].
      * rewrite fmap_app, concat_app in *. simpl in *.
        rewrite app_nil_r in *. by rewrite <- Hcat, <- app_assoc.
      * apply Forall_app. split; [done|]. apply Forall_singleton.
        split; simpl; [apply snoc_not_nil|].
        apply Forall_app. split; [done|]. by apply Forall_singleton.
      * by eapply alternating_snoc_same; [|exact Halt].
      * apply snoc_not_nil.
    + (* another class: the segment is pushed and a new one starts *)
      apply eqb_false_iff in Heq.
      split; [|split; [|split]].
      * rewrite !fmap_app, !concat_app in *. simpl in *.
        rewrite app_nil_r in *. by rewrite <- Hcat.
      * apply Forall_app. split.
        { apply Forall_app. split; [done|]. by apply Forall_singleton. }
        apply Forall_singleton. split; simpl; [done|].
        by apply Forall_singleton.
      * rewrite <- app_assoc. simpl.
        by apply alternating_snoc_new.
      * done.
  - (* the first code unit *)
    destruct Hcur as [-> ->]. simpl in *. subst prefix.
    repeat split; simpl; try done.
    + apply Forall_singleton. split; simpl; [done|]. by apply Forall_singleton.
Qed.

Lemma splitLoop_invariant (chars : str) (st : SplitState) (prefix : str) :
  splitInvariant st prefix ->
  splitInvariant (fold_left splitStep chars st) (prefix ++ chars).
Proof.
  revert st prefix. induction chars as [|c chars IH]; intros st prefix Hinv.
  - by rewrite app_nil_r.
  - simpl. replace (prefix ++ c :: chars) with ((prefix ++ [c]) ++ chars)
      by (by rewrite <- app_assoc).
    by apply IH, splitStep_invariant.
Qed.

(** The split: its segments, put end to end, are the text; each is a
    nonempty run of one class; neighbours are of different classes. *)
Lemma splitIntoSegments_runs (t : str) :
  concat (text <$> splitIntoSegments t) = t
  /\ Forall isRun (splitIntoSegments t)
  /\ alternating (splitIntoSegments t).
Proof.
  pose proof (splitLoop_invariant t (mkSplit [] [] None) []) as Hinv.
  destruct Hinv as (Hcat & Hruns & Halt & _).
  { unfold splitInvariant, segmentsSoFar. simpl. repeat split; constructor. }
  done.
Qed.

End Segmentation.

Section GoogleBackend.
Import GoogleTranslator.

Lemma chinese_not_whitespace (c : N) :
  chineseRegex c = true -> isWhiteSpace c = false.
Proof.
  unfold chineseRegex, isWhiteSpace. intros Hc.
  apply not_true_is_false. intros Hw.
  rewrite !orb_true_iff, !andb_true_iff, !N.leb_le in Hc.
  rewrite !orb_true_iff, !andb_true_iff, !N.leb_le, !N.eqb_eq in Hw.
  lia.
Qed.

Lemma trimStart_keeps (s : str) (c : N) :
  c ∈ s -> isWhiteSpace c = false -> c ∈ trimStart s.
Proof.
  intros Hin Hc. induction s as [|d s IH]; simpl; [done|].
  destruct (isWhiteSpace d) eqn:Hd; [|done].
  apply elem_of_cons in Hin as [->|Hin]; [congruence|auto].
Qed.

Lemma trim_keeps (s : str) (c : N) :
  c ∈ s -> isWhiteSpace c = false -> c ∈ trim s.
Proof.
  intros Hin Hc. unfold trim, trimEnd.
  apply elem_of_reverse, trimStart_keeps; [|done].
  apply elem_of_reverse. by apply trimStart_keeps.
Qed.

(** Text with a Chinese code unit is not blank. *)
Lemma containsChinese_not_blank (t : str) :
  containsChinese t = true -> truthy (trim t) = true.
Proof.
  unfold containsChinese. rewrite existsb_exists.
  intros (c & Hin%list_elem_of_In & Hc).
  apply truthy_true. intros Hnil.
  pose proof (trim_keeps t c Hin (chinese_not_whitespace c Hc)) as Hc'.
  rewrite Hnil in Hc'. by apply elem_of_nil in Hc'.
Qed.

Lemma translateSegments_returns (api : Api) (sl tl : str) (segs : list Segment) :
  forall n outs,
    translateSegments api sl tl n segs = Returns outs ->
    Forall2 (rendered api sl tl) segs outs.
Proof.
  induction segs as [|seg segs IH]; simpl; intros n outs Hret.
  - injection Hret as <-. constructor.
  - unfold rendered at 1. destruct (isChinese seg) eqn:Hseg.
    + destruct (translateChunk _) as [t|] eqn:Hchunk; simpl in Hret; [|done].
      destruct (translateSegments api sl tl (S n) segs) as [more|] eqn:Hmore;
        simpl in Hret; [|done].
      injection Hret as <-. constructor; [|by eapply IH].
      unfold rendered. rewrite Hseg. eauto.
    + destruct (translateSegments api sl tl n segs) as [more|] eqn:Hmore;
        simpl in Hret; [|done].
      injection Hret as <-. constructor; [|by eapply IH].
      unfold rendered. by rewrite Hseg.
Qed.

Lemma translateSegments_throws (api : Api) (sl tl : str) (segs : list Segment) :
  forall n e,
    translateSegments api sl tl n segs = Throws e ->
    exists seg k, seg ∈ segs /\ isChinese seg = true
      /\ translateChunk (api k (text seg) sl tl) = Throws e.
Proof.
  induction segs as [|seg segs IH]; simpl; intros n e Hthrow; [done|].
  destruct (isChinese seg) eqn:Hseg.
  - destruct (translateChunk _) as [t|e'] eqn:Hchunk; simpl in Hthrow.
    + destruct (translateSegments api sl tl (S n) segs) as [more|e'] eqn:Hmore;
        simpl in Hthrow; [done|].
      injection Hthrow as <-.
      destruct (IH _ _ Hmore) as (s & k & Hin & Hs & Hk).
      exists s, k. split; [by right|done].
    + injection Hthrow as <-. exists seg, n. split; [by left|done].
  - destruct (translateSegments api sl tl n segs) as [more|e'] eqn:Hmore;
      simpl in Hthrow; [done|].
    injection Hthrow as <-.
    destruct (IH _ _ Hmore) as (s & k & Hin & Hs & Hk).
    exists s, k. split; [by right|done].
Qed.

Lemma translateSegments_total (api : Api) (sl tl : str) (segs : list Segment) :
  (forall n q, exists r, translateChunk (api n q sl tl) = Returns r) ->
  forall n, exists outs, translateSegments api sl tl n segs = Returns outs.
Proof.
  intros Hapi. induction segs as [|seg segs IH]; simpl; intros n; [eauto|].
  destruct (isChinese seg).
  - destruct (Hapi n (text seg)) as [r ->]. simpl.
    destruct (IH (S n)) as [more ->]. simpl. eauto.
  - destruct (IH n) as [more ->]. simpl. eauto.
Qed.

(** C6, as amended. A backend with its API key set returns blank text and
    text without a Chinese code unit unchanged. Any text splits into
    nonempty runs of Chinese and of other code units, neighbours being of
    different classes, which put end to end give the text back. For text
    with a Chinese code unit the backend sends the Chinese runs, and only
    them, to the API: when every request succeeds it returns the runs'
    renderings put end to end in their order, the other runs being
    rendered as themselves; when a request fails it fails with that
    request's error. *)
Theorem google_translate_segments (self : GoogleTranslator.t) (api : Api)
    (t sourceLang targetLang : str) :
  apiKey self <> [] ->
  let sl := orElse sourceLang (defaultSourceLang self) in
  let tl := orElse targetLang (defaultTargetLang self) in
  let segs := splitIntoSegments t in
  (forallb isWhiteSpace t = true ->
     translate self api t sourceLang targetLang = Returns t)
  /\ (containsChinese t = false ->
        translate self api t sourceLang targetLang = Returns t)
  /\ (concat (text <$> segs) = t /\ Forall isRun segs /\ alternating segs)
  /\ (containsChinese t = true ->
        (forall r, translate self api t sourceLang targetLang = Returns r ->
           exists outs, r = concat outs
                        /\ Forall2 (rendered api sl tl) segs outs)
        /\ ((forall n q, exists r, translateChunk (api n q sl tl) = Returns r) ->
            exists r, translate self api t sourceLang targetLang = Returns r)
        /\ (forall e, translate self api t sourceLang targetLang = Throws e ->
              exists seg n, seg ∈ segs /\ isChinese seg = true
                /\ translateChunk (api n (text seg) sl tl) = Throws e)).
Proof.
  intros Hkey. simpl. unfold translate.
  apply truthy_true in Hkey. rewrite Hkey, orElse_nil_r. simpl.
  split; [|split; [|split]].
  - intros Hblank. by rewrite trim_blank.
  - intros ->. simpl. by destruct (truthy (trim t)).
  - apply splitIntoSegments_runs.
  - intros Hch. rewrite Hch, (containsChinese_not_blank t Hch). simpl.
    destruct (translateSegments api _ _ 0 (splitIntoSegments t))
      as [outs|e] eqn:Hsegs; simpl.
    + split; [|split].
      * intros r [= <-]. exists outs. split; [apply join_nil_concat|].
        by eapply translateSegments_returns.
      * eauto.
      * done.
    + split; [|split].
      * done.
      * intros Hapi.
        destruct (translateSegments_total api _ _ (splitIntoSegments t) Hapi 0)
          as [outs Houts].
        congruence.
      * intros e' [= <-]. by eapply translateSegments_throws.
Qed.

End GoogleBackend.

(** A backend without an API key throws on every text, the empty one
    included, instead of passing it through. *)
Lemma google_translate_without_key :
  let self := GoogleTranslator.mk [] (lit "zh") (lit "en") 4000 in
  let api : GoogleTranslator.Api :=
    fun _ q _ _ => GoogleTranslator.Parsed (Some q) in
  GoogleTranslator.translate self api [] (lit "zh") (lit "en")
    = Throws (newError (lit "GOOGLE_TRANSLATE_API_KEY is not set"))
  /\ GoogleTranslator.translate self api [] (lit "zh") (lit "en") <> Returns []
  /\ GoogleTranslator.translate self api (lit "hello") (lit "zh") (lit "en")
     <> Returns (lit "hello").
Proof. vm_compute. repeat split; discriminate. Qed.

(** A Chinese word between two Latin ones, with an API that answers
    [Hello] to every request. *)
Lemma google_translate_segments_witness :
  let self := GoogleTranslator.new exampleConfig in
  let api : GoogleTranslator.Api :=
    fun _ _ _ _ => GoogleTranslator.Parsed (Some (lit "Hello")) in
  let t := lit "hi " ++ [20320; 22909] ++ lit " ok" in
  GoogleTranslator.apiKey self <> []
  /\ exists outs,
       GoogleTranslator.translate self api t (lit "zh") (lit "en")
       = Returns (concat outs)
       /\ Forall2 (rendered api (lit "zh") (lit "en"))
            (GoogleTranslator.splitIntoSegments t) outs.
Proof.
  split; [discriminate|].
  destruct (google_translate_segments (GoogleTranslator.new exampleConfig)
    (fun _ _ _ _ => GoogleTranslator.Parsed (Some (lit "Hello")))
    (lit "hi " ++ [20320; 22909] ++ lit " ok") (lit "zh") (lit "en")
    ltac:(discriminate)) as (_ & _ & _ & Hmixed).
  destruct (Hmixed eq_refl) as (Hret & Htotal & _).
  destruct Htotal as [r Hr]; [intros n q; by eexists|].
  destruct (Hret r Hr) as (outs & -> & Hrendered).
  exists outs. split; [exact Hr|exact Hrendered].
Defined.

Example google_translate_mixed :
  GoogleTranslator.translate (GoogleTranslator.new exampleConfig)
    (fun _ _ _ _ => GoogleTranslator.Parsed (Some (lit "Hello")))
    (lit "hi " ++ [20320; 22909] ++ lit " ok") (lit "zh") (lit "en")
  = Returns (lit "hi Hello ok").
Proof. vm_compute. reflexivity. Qed.

(* ----------------------------------------------------------------- *)
(** ** The delayed delivery queue: what each operation does to the fields *)
(* ----------------------------------------------------------------- *)

Section Queue.
Import Bridge.

(** Fields a successful delivery leaves alone or only shrinks. *)
Ltac delivered_fields :=
  unfold delivered; cbn;
  destruct (1000 <? sizeOf (add _ _)); cbn;
  destruct (1000 <? sizeOf (deletedMessageIds _)); cbn.

Lemma delivered_outbox (key : str) (s : Bridge.t) :
  outbox (delivered key s) = outbox s.
Proof. by delivered_fields. Qed.

Lemma delivered_timers (key : str) (s : Bridge.t) :
  timers (delivered key s) = timers s.
Proof. by delivered_fields. Qed.

Lemma delivered_pending (key : str) (s : Bridge.t) :
  pendingMessages (delivered key s) = delete key (pendingMessages s).
Proof. by delivered_fields. Qed.

Lemma delivered_deleted (key : str) (s : Bridge.t) :
  deletedMessageIds (delivered key s)
  = if 1000 <? sizeOf (deletedMessageIds s)
    then sliceLast 1000 (deletedMessageIds s) else deletedMessageIds s.
Proof. by delivered_fields. Qed.

Lemma delivered_processed (key : str) (s : Bridge.t) :
  processedMessageIds (delivered key s)
  = if 1000 <? sizeOf (add (processedMessageIds s) key)
    then sliceLast 1000 (add (processedMessageIds s) key)
    else add (processedMessageIds s) key.
Proof. by delivered_fields. Qed.

Lemma delivered_config (key : str) (s : Bridge.t) :
  config (delivered key s) = config s.
Proof. by delivered_fields. Qed.

Lemma delivered_deleted_subset (key x : str) (s : Bridge.t) :
  x ∈ deletedMessageIds (delivered key s) -> x ∈ deletedMessageIds s.
Proof.
  rewrite delivered_deleted. case_match; [apply elem_of_sliceLast|done].
Qed.

Lemma delivered_bounds (key : str) (s : Bridge.t) :
  sizeOf (processedMessageIds (delivered key s)) <= 1000
  /\ sizeOf (deletedMessageIds (delivered key s)) <= 1000.
Proof.
  rewrite delivered_processed, delivered_deleted. split.
  - destruct (N.ltb_spec 1000 (sizeOf (add (processedMessageIds s) key)));
      [rewrite sliceLast_sizeOf|]; lia.
  - destruct (N.ltb_spec 1000 (sizeOf (deletedMessageIds s)));
      [rewrite sliceLast_sizeOf|]; lia.
Qed.

(** How each operation acts on the fields. *)
Lemma queueMessage_fields (key : str) (bm : BridgeMessage.t) (txt : str)
    (s : Bridge.t) :
  let s' := queueMessage key bm txt s in
  config s' = config s
  /\ processedMessageIds s' = processedMessageIds s
  /\ deletedMessageIds s' = deletedMessageIds s
  /\ outbox s' = outbox s
  /\ timers s'
     = <[nextTimer s :=
           (mkTimer (now s + timerDelay (messageDelayMs s)) key bm txt)]> (timers s)
  /\ pendingMessages s'
     = <[key := (mkPending (nextTimer s) bm txt)]> (pendingMessages s).
Proof. done. Qed.

Lemma handleUpdate_cases (ctx : Telegram.Context) (tr : Translator.t)
    (s : Bridge.t) :
  handleUpdate ctx tr s = s
  \/ exists bm txt,
       normalizeMessage s ctx = Some bm
       /\ (keyOf bm ∉ processedMessageIds s)
       /\ handleUpdate ctx tr s = queueMessage (keyOf bm) bm txt s.
Proof.
  unfold handleUpdate.
  destruct (normalizeMessage s ctx) as [bm|]; [|by left].
  destruct (has (processedMessageIds s) (keyOf bm)) eqn:Hdup; [by left|].
  destruct (MessageProcessor.shouldProcess bm); [|by left].
  right. exists bm. eexists. split; [done|]. split; [by apply has_false|].
  reflexivity.
Qed.

Lemma markMessageAsDeleted_fields (key : str) (s : Bridge.t) :
  let s' := markMessageAsDeleted key s in
  config s' = config s
  /\ processedMessageIds s' = processedMessageIds s
  /\ deletedMessageIds s' = add (deletedMessageIds s) key
  /\ outbox s' = outbox s
  /\ pendingMessages s' = delete key (pendingMessages s)
  /\ timers s'
     = match pendingMessages s !! key with
       | Some pending => delete (timeout pending) (timers s)
       | None => timers s
       end.
Proof.
  cbn zeta. unfold markMessageAsDeleted. cbn.
  destruct (pendingMessages s !! key) as [p|] eqn:Hp; cbn; repeat split.
  symmetry. by apply delete_id.
Qed.

Lemma markMessageAsDeleted_timers (key : str) (s : Bridge.t) :
  timers (markMessageAsDeleted key s) ⊆ timers s.
Proof.
  rewrite (proj2 (proj2 (proj2 (proj2 (proj2
             (markMessageAsDeleted_fields key s)))))).
  destruct (pendingMessages s !! key); [apply delete_subseteq|done].
Qed.

Lemma stop_fields (s : Bridge.t) :
  let s' := stop s in
  config s' = config s
  /\ processedMessageIds s' = processedMessageIds s
  /\ deletedMessageIds s' = deletedMessageIds s
  /\ outbox s' = outbox s
  /\ pendingMessages s' = ∅
  /\ timers s' ⊆ timers s.
Proof.
  cbn zeta. unfold stop. cbn.
  generalize (pendingMessages s) at 1 2 3 4 5. intros m.
  induction m as [|k p m Hk Hfold IH] using map_first_key_ind.
  - by rewrite map_fold_empty.
  - rewrite map_fold_insert_first_key by done. cbn.
    destruct IH as (-> & -> & -> & -> & _ & Hsub).
    repeat split. etrans; [apply delete_subseteq|done].
Qed.

Lemma normalizeMessage_config (s1 s2 : Bridge.t) (ctx : Telegram.Context) :
  config s1 = config s2 -> normalizeMessage s1 ctx = normalizeMessage s2 ctx.
Proof. intros Hc. unfold normalizeMessage. by rewrite Hc. Qed.

(** What the callback of a timer does to the fields, case by case. *)
Lemma timerCallback_processed (handle : nat) (tm : Timer)
    (messageExists : Result bool)
    (send resend : Result Z) (s : Bridge.t) :
  let s' := timerCallback handle tm messageExists send resend s in
  processedMessageIds s' = processedMessageIds s
  \/ processedMessageIds s'
     = processedMessageIds (delivered (messageKey tm) s).
Proof.
  cbn zeta. unfold timerCallback.
  destruct (has (deletedMessageIds s) (messageKey tm)); [by left|].
  assert (forall s0 : Bridge.t,
            processedMessageIds s0 = processedMessageIds s ->
            processedMessageIds (delivered (messageKey tm) s0)
            = processedMessageIds (delivered (messageKey tm) s)) as Hdel.
  { intros s0 Hs0. by rewrite !delivered_processed, Hs0. }
  destruct messageExists as [[]|];
    [..|left; apply markMessageAsDeleted_fields|];
    (destruct send as [?|err];
     [right; by apply Hdel
     |destruct (isParseError err);
      [destruct resend; [right; by apply Hdel|by left]|by left]]).
Qed.

Lemma timerCallback_config (handle : nat) (tm : Timer)
    (messageExists : Result bool)
    (send resend : Result Z) (s : Bridge.t) :
  config (timerCallback handle tm messageExists send resend s) = config s.
Proof.
  unfold timerCallback.
  destruct (has (deletedMessageIds s) (messageKey tm)); [done|].
  destruct messageExists as [[]|];
    [..|apply markMessageAsDeleted_fields|];
    (destruct send as [?|err];
     [by rewrite delivered_config
     |destruct (isParseError err);
      [destruct resend; [by rewrite delivered_config|done]|done]]).
Qed.

Lemma timerCallback_timers (handle : nat) (tm : Timer)
    (messageExists : Result bool)
    (send resend : Result Z) (s : Bridge.t) :
  timers (timerCallback handle tm messageExists send resend s) ⊆ timers s.
Proof.
  unfold timerCallback.
  destruct (has (deletedMessageIds s) (messageKey tm)); [done|].
  destruct messageExists as [[]|];
    [..|apply markMessageAsDeleted_timers|];
    (destruct send as [?|err];
     [by rewrite delivered_timers
     |destruct (isParseError err);
      [destruct resend; [by rewrite delivered_timers|done]|done]]).
Qed.

(** Every send a callback makes is for the key of its timer. *)
Lemma timerCallback_outbox (handle : nat) (tm : Timer)
    (messageExists : Result bool)
    (send resend : Result Z) (s : Bridge.t) :
  exists calls,
    outbox (timerCallback handle tm messageExists send resend s) = outbox s ++ calls
    /\ Forall (fun c => forKey c = messageKey tm /\ viaTimer c = handle) calls.
Proof.
  unfold timerCallback.
  destruct (has (deletedMessageIds s) (messageKey tm));
    [exists []; by rewrite app_nil_r|].
  destruct messageExists as [[]|];
    [..|exists []; split; [|done];
        rewrite app_nil_r; apply markMessageAsDeleted_fields|];
    (destruct send as [?|err];
     [rewrite delivered_outbox; eexists; split; [done|];
      by repeat constructor
     |destruct (isParseError err);
      [destruct resend;
       [rewrite delivered_outbox|];
       cbn; rewrite <- app_assoc; eexists; (split; [done|]);
       by repeat constructor
      |eexists; split; [done|]; by repeat constructor]]).
Qed.

Lemma step_config (s : Bridge.t) (ev : Event) : config (step s ev) = config s.
Proof.
  destruct ev as [ctx tr|key|ms|h ex send resend|]; cbn [step].
  - by destruct (handleUpdate_cases ctx tr s) as [->|(bm & txt & _ & _ & ->)].
  - apply markMessageAsDeleted_fields.
  - done.
  - unfold fire. destruct (timers s !! h) as [tm|]; [|done].
    destruct (due tm <=? now s); [|done].
    by rewrite timerCallback_config.
  - apply stop_fields.
Qed.

Lemma run_snoc (s : Bridge.t) (evs : list Event) (ev : Event) :
  run s (evs ++ [ev]) = step (run s evs) ev.
Proof. unfold run. by rewrite fold_left_app. Qed.

Lemma fire_delivers (handle : nat) (tm : Timer) (messageExists : Result bool)
    (send resend : Result Z) (s : Bridge.t) :
  timers s !! handle = Some tm ->
  (due tm <= now s)%N ->
  messageKey tm ∉ deletedMessageIds s ->
  messageExists <> Returns false ->
  sendSucceeds send resend = true ->
  exists s0,
    fire handle messageExists send resend s = delivered (messageKey tm) s0
    /\ processedMessageIds s0 = processedMessageIds s
    /\ deletedMessageIds s0 = deletedMessageIds s.
Proof.
  intros Htm Hdue%N.leb_le Hkey%has_false Hex Hsend.
  unfold fire. rewrite Htm, Hdue. unfold timerCallback.
  cbn [deletedMessageIds clearTimeout]. rewrite Hkey.
  unfold sendSucceeds in Hsend.
  destruct messageExists as [[]|]; [|done|];
    (destruct send as [?|err];
     [by eexists
     |apply andb_prop in Hsend as [-> Hre];
      destruct resend; [by eexists|done]]).
Qed.

(* ----------------------------------------------------------------- *)
(** ** The delayed delivery queue: sending at fire time *)
(* ----------------------------------------------------------------- *)

(** C5. A throwing existence check is handled as one that returned
    [true]: the timer's callback leaves the bridge in the same state
    either way. So, for a live and due timer whose key is not a tombstone,
    the send with Markdown is made, and the key is not made a tombstone. *)
Theorem existence_check_fails_open (handle : nat) (e : Error)
    (send resend : Result Z) (s : Bridge.t) :
  fire handle (Throws e) send resend s
  = fire handle (Returns true) send resend s
  /\ forall tm,
       timers s !! handle = Some tm ->
       (due tm <= now s)%N ->
       messageKey tm ∉ deletedMessageIds s ->
       let s' := fire handle (Throws e) send resend s in
       (exists rest,
          outbox s'
          = outbox s
            ++ mkSendCall (messageKey tm) handle (timerText tm)
                 (Some (lit "Markdown")) send :: rest)
       /\ messageKey tm ∉ deletedMessageIds s'.
Proof.
  split.
  - unfold fire. destruct (timers s !! handle) as [tm|]; [|done].
    by destruct (due tm <=? now s)%N.
  - intros tm Htm Hdue Hkey. cbn zeta. unfold fire. rewrite Htm.
    apply N.leb_le in Hdue. rewrite Hdue.
    unfold timerCallback. cbn [deletedMessageIds clearTimeout].
    apply has_false in Hkey as Hhas. rewrite Hhas.
    destruct send as [id|err].
    + rewrite delivered_outbox. cbn. split; [by eexists|].
      intros Hin%delivered_deleted_subset. done.
    + destruct (isParseError err); [destruct resend as [id|err']|].
      * rewrite delivered_outbox. cbn. rewrite <- app_assoc.
        split; [by eexists|].
        intros Hin%delivered_deleted_subset. done.
      * cbn. rewrite <- app_assoc. split; [by eexists|done].
      * cbn. split; [by eexists|done].
Qed.

(** C4. The timer fires for a key that is not a tombstone and whose
    message is taken to exist, and the send with Markdown throws [e]. When
    [e] is a parse error the text is sent once more, without options, and
    that is the last send; when the second send throws too, the key is not
    recorded as processed and the pending entry is removed. When [e] is
    any other error there is no second send, the key is not recorded and
    the pending entry is removed. *)
Theorem send_failure_handling (handle : nat) (tm : Timer)
    (messageExists : Result bool) (send resend : Result Z) (e : Error)
    (s : Bridge.t) :
  timers s !! handle = Some tm ->
  (due tm <= now s)%N ->
  messageKey tm ∉ deletedMessageIds s ->
  messageExists <> Returns false ->
  send = Throws e ->
  let s' := fire handle messageExists send resend s in
  let first :=
    mkSendCall (messageKey tm) handle (timerText tm) (Some (lit "Markdown")) send in
  let again := mkSendCall (messageKey tm) handle (timerText tm) None resend in
  (isParseError e = true ->
     outbox s' = outbox s ++ [first; again]
     /\ forall e', resend = Throws e' ->
          processedMessageIds s' = processedMessageIds s
          /\ pendingMessages s' !! messageKey tm = None)
  /\ (isParseError e = false ->
        outbox s' = outbox s ++ [first]
        /\ processedMessageIds s' = processedMessageIds s
        /\ pendingMessages s' !! messageKey tm = None).
Proof.
  intros Htm Hdue Hkey Hexists ->. cbn zeta. unfold fire. rewrite Htm.
  apply N.leb_le in Hdue. rewrite Hdue.
  unfold timerCallback. cbn [deletedMessageIds clearTimeout].
  apply has_false in Hkey. rewrite Hkey.
  assert (forall A (x y : A),
             match messageExists with
             | Returns false => x
             | Returns true | Throws _ => y
             end = y) as Hgo.
  { intros. by destruct messageExists as [[]|]. }
  rewrite Hgo. split; intros Hparse; rewrite Hparse.
  - destruct resend as [id|e'].
    + rewrite delivered_outbox. cbn. rewrite <- app_assoc.
      split; [done|]. intros e' [=].
    + cbn. rewrite <- app_assoc. split; [done|].
      intros _ _. split; [done|]. apply lookup_delete_eq.
  - cbn. split; [done|]. split; [done|]. apply lookup_delete_eq.
Qed.

(* ----------------------------------------------------------------- *)
(** ** The delayed delivery queue: the bounded sets *)
(* ----------------------------------------------------------------- *)

Lemma step_processed_bound (s : Bridge.t) (ev : Event) :
  sizeOf (processedMessageIds s) <= 1000 ->
  sizeOf (processedMessageIds (step s ev)) <= 1000.
Proof.
  intros Hs. destruct ev as [ctx tr|key|ms|h ex send resend|]; cbn [step].
  - destruct (handleUpdate_cases ctx tr s) as [->|(bm & txt & _ & _ & ->)];
      [done|]. by rewrite (proj1 (proj2 (queueMessage_fields _ _ _ _))).
  - by rewrite (proj1 (proj2 (markMessageAsDeleted_fields _ _))).
  - done.
  - unfold fire. destruct (timers s !! h) as [tm|]; [|done].
    destruct (due tm <=? now s); [|done].
    destruct (timerCallback_processed h tm ex send resend (clearTimeout h s))
      as [->| ->]; [done|apply delivered_bounds].
  - by rewrite (proj1 (proj2 (stop_fields _))).
Qed.

(** The bridge never remembers more than 1000 processed keys. *)
Lemma run_processed_bound (config : Config.t) (tr : bool) (evs : list Event) :
  sizeOf (processedMessageIds (run (Bridge.new config tr) evs)) <= 1000.
Proof.
  induction evs as [|ev evs IH] using rev_ind; [done|].
  rewrite run_snoc. by apply step_processed_bound.
Qed.

(** X23. From a new bridge, whatever happens, the processed set holds at
    most 1000 keys. A timer that fires and delivers leaves each of the two
    sets with its newest 1000 keys, or all of them when there are fewer:
    the set before (with the delivered key added, for the processed set)
    is the evicted keys followed by the set after, and the set after holds
    1000 keys or as many as the set before, whichever is less. *)
Theorem bounded_sets_after_delivery :
  (forall (config : Config.t) (tr : bool) (evs : list Event),
     sizeOf (processedMessageIds (run (Bridge.new config tr) evs)) <= 1000)
  /\ (forall (handle : nat) (tm : Timer) (messageExists : Result bool)
             (send resend : Result Z) (s : Bridge.t),
        timers s !! handle = Some tm ->
        (due tm <= now s)%N ->
        messageKey tm ∉ deletedMessageIds s ->
        messageExists <> Returns false ->
        sendSucceeds send resend = true ->
        let s' := fire handle messageExists send resend s in
        sizeOf (processedMessageIds s') <= 1000
        /\ sizeOf (deletedMessageIds s') <= 1000
        /\ (exists evicted,
              add (processedMessageIds s) (messageKey tm)
              = evicted ++ processedMessageIds s')
        /\ (exists evicted,
              deletedMessageIds s = evicted ++ deletedMessageIds s')
        /\ sizeOf (processedMessageIds s')
           = N.min 1000
               (sizeOf (add (processedMessageIds s) (messageKey tm)))
        /\ sizeOf (deletedMessageIds s')
           = N.min 1000 (sizeOf (deletedMessageIds s))).
Proof.
  split; [apply run_processed_bound|].
  intros handle tm messageExists send resend s Htm Hdue Hkey Hex Hsend.
  destruct (fire_delivers handle tm messageExists send resend s)
    as (s0 & Hfire & Hp & Hd); [done..|].
  cbn zeta. rewrite Hfire.
  split; [apply delivered_bounds|]. split; [apply delivered_bounds|].
  rewrite delivered_processed, delivered_deleted, Hp, Hd.
  split; [|split; [|split]].
  - destruct (1000 <? sizeOf (add (processedMessageIds s) (messageKey tm))).
    + eexists. apply sliceLast_split.
    + by exists [].
  - destruct (1000 <? sizeOf (deletedMessageIds s)).
    + eexists. apply sliceLast_split.
    + by exists [].
  - destruct (N.ltb_spec 1000
                (sizeOf (add (processedMessageIds s) (messageKey tm))));
      [by rewrite sliceLast_sizeOf|lia].
  - destruct (N.ltb_spec 1000 (sizeOf (deletedMessageIds s)));
      [by rewrite sliceLast_sizeOf|lia].
Qed.

(* ----------------------------------------------------------------- *)
(** ** The delayed delivery queue: retraction *)
(* ----------------------------------------------------------------- *)







Lemma delivered_nextTimer (key : str) (s : Bridge.t) :
  nextTimer (delivered key s) = nextTimer s.
Proof. by delivered_fields. Qed.

Lemma markMessageAsDeleted_nextTimer (key : str) (s : Bridge.t) :
  nextTimer (markMessageAsDeleted key s) = nextTimer s.
Proof.
  unfold markMessageAsDeleted. cbn. by destruct (pendingMessages s !! key).
Qed.

Lemma stop_nextTimer (s : Bridge.t) : nextTimer (stop s) = nextTimer s.
Proof.
  unfold stop. cbn. generalize (pendingMessages s). intros m.
  induction m as [|k p m Hk Hfirst IH] using map_first_key_ind.
  - by rewrite map_fold_empty.
  - by rewrite map_fold_insert_first_key.
Qed.

Lemma timerCallback_nextTimer (handle : nat) (tm : Timer)
    (messageExists : Result bool) (send resend : Result Z) (s : Bridge.t) :
  nextTimer (timerCallback handle tm messageExists send resend s)
  = nextTimer s.
Proof.
  unfold timerCallback.
  destruct (has (deletedMessageIds s) (messageKey tm)); [done|].
  destruct messageExists as [[]|];
    [..|apply markMessageAsDeleted_nextTimer|];
    (destruct send as [?|err];
     [by rewrite delivered_nextTimer
     |destruct (isParseError err);
      [destruct resend; [by rewrite delivered_nextTimer|done]|done]]).
Qed.

(** In every case the callback removes the pending entry of its key. *)
Lemma timerCallback_pending (handle : nat) (tm : Timer)
    (messageExists : Result bool) (send resend : Result Z) (s : Bridge.t) :
  pendingMessages (timerCallback handle tm messageExists send resend s)
  = delete (messageKey tm) (pendingMessages s).
Proof.
  unfold timerCallback.
  destruct (has (deletedMessageIds s) (messageKey tm)); [done|].
  destruct messageExists as [[]|];
    [..|apply markMessageAsDeleted_fields|];
    (destruct send as [?|err];
     [by rewrite delivered_pending
     |destruct (isParseError err);
      [destruct resend; [by rewrite delivered_pending|done]|done]]).
Qed.

(** The only timer a callback can clear is the one of the pending entry of
    its key. *)
Lemma timerCallback_timers_cases (handle : nat) (tm : Timer)
    (messageExists : Result bool) (send resend : Result Z) (s : Bridge.t) :
  let s' := timerCallback handle tm messageExists send resend s in
  timers s' = timers s
  \/ exists pending,
       pendingMessages s !! messageKey tm = Some pending
       /\ timers s' = delete (timeout pending) (timers s).
Proof.
  cbn zeta. unfold timerCallback.
  destruct (has (deletedMessageIds s) (messageKey tm)); [by left|].
  destruct messageExists as [[]|];
    [| |];
    try (destruct send as [?|err];
         [left; by rewrite delivered_timers
         |destruct (isParseError err);
          [destruct resend; [left; by rewrite delivered_timers|by left]
          |by left]]).
  rewrite (proj2 (proj2 (proj2 (proj2 (proj2
             (markMessageAsDeleted_fields (messageKey tm) s)))))).
  destruct (pendingMessages s !! messageKey tm) as [p|]; [right; eauto|by left].
Qed.

Lemma new_wellFormed (config : Config.t) (tr : bool) :
  wellFormed (Bridge.new config tr).
Proof.
  split; [|split]; cbn.
  - intros h tm Hh. by rewrite lookup_empty in Hh.
  - intros key p Hp. by rewrite lookup_empty in Hp.
  - intros c Hc. by apply elem_of_nil in Hc.
Qed.

Lemma queueMessage_wellFormed (key : str) (bm : BridgeMessage.t) (txt : str)
    (s : Bridge.t) :
  wellFormed s -> wellFormed (queueMessage key bm txt s).
Proof.
  intros (Hfresh & Hlive & Hsent). split; [|split]; cbn.
  - intros h tm [[<- _]|[_ Hh]]%lookup_insert_Some; [lia|].
    apply Hfresh in Hh. lia.
  - intros k p [[<- <-]|[Hk Hp]]%lookup_insert_Some; cbn.
    + eexists. by rewrite lookup_insert_eq.
    + destruct (Hlive k p Hp) as (tm & Htm & Hkey).
      exists tm. split; [|done].
      rewrite lookup_insert_ne; [done|]. apply Hfresh in Htm. lia.
  - intros c Hc. destruct (Hsent c Hc) as [Hlt Hnone].
    split; [lia|]. rewrite lookup_insert_ne; [done|lia].
Qed.

Lemma markMessageAsDeleted_wellFormed (key : str) (s : Bridge.t) :
  wellFormed s -> wellFormed (markMessageAsDeleted key s).
Proof.
  intros (Hfresh & Hlive & Hsent).
  destruct (markMessageAsDeleted_fields key s) as (_ & _ & _ & Ho & Hp & Ht).
  pose proof (markMessageAsDeleted_timers key s) as Hsub.
  unfold wellFormed.
  rewrite markMessageAsDeleted_nextTimer, Ho, Hp.
  split; [|split].
  - intros h tm Hh. eapply Hfresh, lookup_weaken; done.
  - intros k p [Hk Hkp]%lookup_delete_Some.
    destruct (Hlive k p Hkp) as (tm & Htm & Hkey).
    exists tm. split; [|done]. rewrite Ht.
    destruct (pendingMessages s !! key) as [p0|] eqn:Hp0; [|done].
    rewrite lookup_delete_ne; [done|]. intros Heq.
    destruct (Hlive key p0 Hp0) as (tm0 & Htm0 & Hkey0).
    rewrite Heq in Htm0. congruence.
  - intros c Hc. destruct (Hsent c Hc) as [Hlt Hnone]. split; [done|].
    destruct (timers (markMessageAsDeleted key s) !! viaTimer c) eqn:Hl;
      [|done].
    eapply lookup_weaken in Hl; [|exact Hsub]. congruence.
Qed.

Lemma stop_wellFormed (s : Bridge.t) : wellFormed s -> wellFormed (stop s).
Proof.
  intros (Hfresh & Hlive & Hsent).
  destruct (stop_fields s) as (_ & _ & _ & Ho & Hp & Hsub).
  unfold wellFormed. rewrite stop_nextTimer, Ho, Hp.
  split; [|split].
  - intros h tm Hh. eapply Hfresh, lookup_weaken; done.
  - intros k p Hkp. by rewrite lookup_empty in Hkp.
  - intros c Hc. destruct (Hsent c Hc) as [Hlt Hnone]. split; [done|].
    destruct (timers (stop s) !! viaTimer c) eqn:Hl; [|done].
    eapply lookup_weaken in Hl; [|exact Hsub]. congruence.
Qed.

Lemma fire_wellFormed (handle : nat) (messageExists : Result bool)
    (send resend : Result Z) (s : Bridge.t) :
  wellFormed s -> wellFormed (fire handle messageExists send resend s).
Proof.
  intros Hwf. pose proof Hwf as (Hfresh & Hlive & Hsent). unfold fire.
  destruct (timers s !! handle) as [tm|] eqn:Htm; [|done].
  destruct (due tm <=? now s); [|done].
  pose proof (timerCallback_timers handle tm messageExists send resend
                (clearTimeout handle s)) as Hsub.
  pose proof (timerCallback_timers_cases handle tm messageExists send resend
                (clearTimeout handle s)) as Hcases.
  destruct (timerCallback_outbox handle tm messageExists send resend
              (clearTimeout handle s)) as (calls & Hout & Hcalls).
  cbn [timers nextTimer pendingMessages outbox clearTimeout] in Hsub, Hcases, Hout.
  assert (forall h tm',
            timers (timerCallback handle tm messageExists send resend
                      (clearTimeout handle s)) !! h = Some tm' ->
            h <> handle /\ timers s !! h = Some tm') as Hold.
  { intros h tm' Hh. eapply lookup_weaken in Hh; [|exact Hsub].
    apply lookup_delete_Some in Hh as [Hne Hh]. split; [congruence|done]. }
  unfold wellFormed.
  rewrite timerCallback_nextTimer, timerCallback_pending, Hout.
  cbn [nextTimer pendingMessages outbox clearTimeout].
  split; [|split].
  - intros h tm' Hh. apply Hold in Hh as [_ Hh]. by eapply Hfresh.
  - intros k p [Hk Hkp]%lookup_delete_Some.
    destruct (Hlive k p Hkp) as (tm' & Htm' & Hkey').
    exists tm'. split; [|done].
    assert (timeout p <> handle) as Hne by (intros Heq; congruence).
    destruct Hcases as [->|(p0 & Hp0 & ->)].
    + by rewrite lookup_delete_ne.
    + rewrite lookup_delete_ne; [by rewrite lookup_delete_ne|].
      intros Heq. destruct (Hlive _ p0 Hp0) as (tm0 & Htm0 & Hkey0).
      rewrite Heq in Htm0. congruence.
  - intros c [Hc|Hc]%elem_of_app.
    + destruct (Hsent c Hc) as [Hlt Hnone]. split; [done|].
      destruct (timers (timerCallback _ _ _ _ _ _) !! viaTimer c) eqn:Hl;
        [|done].
      apply Hold in Hl as [_ Hl]. congruence.
    + rewrite Forall_forall in Hcalls. destruct (Hcalls c Hc) as [_ ->].
      split; [by eapply Hfresh|].
      destruct (timers (timerCallback _ _ _ _ _ _) !! handle) eqn:Hl;
        [|done].
      by apply Hold in Hl as [? _].
Qed.

Lemma step_wellFormed (s : Bridge.t) (ev : Event) :
  wellFormed s -> wellFormed (step s ev).
Proof.
  intros Hwf. destruct ev as [ctx tr|key|ms|h ex send resend|]; cbn [step].
  - destruct (handleUpdate_cases ctx tr s) as [->|(bm & txt & _ & _ & ->)];
      [done|by apply queueMessage_wellFormed].
  - by apply markMessageAsDeleted_wellFormed.
  - done.
  - by apply fire_wellFormed.
  - by apply stop_wellFormed.
Qed.

(** Every state the bridge reaches is well formed. *)
Lemma run_wellFormed (config : Config.t) (tr : bool) (evs : list Event) :
  wellFormed (run (Bridge.new config tr) evs).
Proof.
  induction evs as [|ev evs IH] using rev_ind; [apply new_wellFormed|].
  rewrite run_snoc. by apply step_wellFormed.
Qed.



(** A live timer has not sent anything yet. *)
Lemma live_timer_unsent (handle : nat) (tm : Timer) (s : Bridge.t) :
  wellFormed s -> timers s !! handle = Some tm -> sendsVia handle s = [].
Proof.
  intros (_ & _ & Hsent) Htm. unfold sendsVia.
  induction (outbox s) as [|c calls IH]; [done|].
  rewrite filter_cons_False.
  - apply IH. intros c' Hc'. apply Hsent. by right.
  - intros Hc. destruct (Hsent c) as [_ Hnone]; [by left|]. congruence.
Qed.


End Queue.

(* ----------------------------------------------------------------- *)
(** ** The theorems of the queue at work on runs *)
(* ----------------------------------------------------------------- *)


(** The timer of message 5 is due; the existence check throws. *)
Lemma existence_check_fails_open_witness :
  let s := Bridge.advance 30000 oneQueued in
  let e := newError (lit "ETIMEDOUT") in
  Bridge.fire 0 (Throws e) (Returns 900%Z) (Returns 0%Z) s
  = Bridge.fire 0 (Returns true) (Returns 900%Z) (Returns 0%Z) s.
Proof.
  exact (proj1 (existence_check_fails_open 0%nat (newError (lit "ETIMEDOUT"))
                  (Returns 900%Z) (Returns 0%Z)
                  (Bridge.advance 30000 oneQueued))).
Defined.

(** The timer of message 5 is due; Telegram rejects the Markdown and then
    the plain text as well. *)
Lemma send_failure_handling_witness :
  let s := Bridge.advance 30000 oneQueued in
  let parseError := newError (lit "400: Bad Request: can't parse entities") in
  let down := newError (lit "ETIMEDOUT") in
  let s' := Bridge.fire 0 (Returns true) (Throws parseError) (Throws down) s in
  Bridge.outbox s'
  = [Bridge.mkSendCall (lit "-100:5") 0 (lit "[From CN] Unknown: x")
       (Some (lit "Markdown")) (Throws parseError);
     Bridge.mkSendCall (lit "-100:5") 0 (lit "[From CN] Unknown: x")
       None (Throws down)]
  /\ Bridge.processedMessageIds s' = []
  /\ Bridge.pendingMessages s' !! lit "-100:5" = None.
Proof.
  destruct (send_failure_handling 0%nat
              (Bridge.mkTimer 30000 (lit "-100:5")
                 (BridgeMessage.mk 5 (lit "-100") (lit "Unknown") (lit "x")
                    None 0)
                 (lit "[From CN] Unknown: x"))
              (Returns true)
              (Throws (newError (lit "400: Bad Request: can't parse entities")))
              (Throws (newError (lit "ETIMEDOUT")))
              (newError (lit "400: Bad Request: can't parse entities"))
              (Bridge.advance 30000 oneQueued))
    as [Hparse _].
  - vm_compute. reflexivity.
  - vm_compute. discriminate.
  - vm_compute. apply not_elem_of_nil.
  - discriminate.
  - reflexivity.
  - destruct (Hparse eq_refl) as [Hout Hrest].
    destruct (Hrest _ eq_refl) as [Hproc Hpend].
    split; [exact Hout|]. split; [exact Hproc|exact Hpend].
Defined.

(** The timer of message 2000 is due and the send succeeds, on a bridge
    that holds 1000 processed keys and 1001 tombstones: each set is cut to
    1000 keys. *)
Lemma bounded_sets_after_delivery_witness :
  let s' :=
    Bridge.fire 0 (Returns true) (Returns 900%Z) (Returns 0%Z) fullSets in
  sizeOf (Bridge.processedMessageIds s') = 1000
  /\ sizeOf (Bridge.deletedMessageIds s') = 1000
  /\ (exists evicted,
        add (Bridge.processedMessageIds fullSets) (lit "-100:2000")
        = evicted ++ Bridge.processedMessageIds s')
  /\ (exists evicted,
        Bridge.deletedMessageIds fullSets
        = evicted ++ Bridge.deletedMessageIds s').
Proof.
  destruct (proj2 bounded_sets_after_delivery 0%nat
              (Bridge.mkTimer 30000 (lit "-100:2000")
                 (BridgeMessage.mk 2000 (lit "-100") (lit "Unknown") (lit "x")
                    None 0)
                 (lit "[From CN] Unknown: x"))
              (Returns true) (Returns 900%Z) (Returns 0%Z) fullSets)
    as (_ & _ & Hpe & Hde & Hp & Hd).
  - vm_compute. reflexivity.
  - vm_compute. discriminate.
  - apply has_false. vm_compute. reflexivity.
  - discriminate.
  - reflexivity.
  - split; [rewrite Hp; vm_compute; reflexivity|].
    split; [rewrite Hd; vm_compute; reflexivity|].
    split; [exact Hpe|exact Hde].
Defined.


(* ----------------------------------------------------------------- *)
(** ** Where the queue departs from its specification *)
(* ----------------------------------------------------------------- *)

Lemma retractedKeys_NoDup (n : nat) : NoDup (retractedKeys n).
Proof.
  unfold retractedKeys. apply NoDup_fmap_2; [|apply NoDup_seq].
  intros i j Heq. by apply app_inv_head, numToStr_inj, Nat2Z.inj in Heq.
Qed.

(** Retractions of keys that are not tombstones yet append them to the
    tombstone set, however many it holds. *)
Lemma run_retractions (keys : list str) :
  forall s : Bridge.t,
    NoDup keys ->
    (forall k, k ∈ keys -> k ∉ Bridge.deletedMessageIds s) ->
    Bridge.deletedMessageIds (Bridge.run s (Bridge.Deleted <$> keys))
    = Bridge.deletedMessageIds s ++ keys.
Proof.
  induction keys as [|k keys IH]; intros s Hnodup Hfresh.
  - by rewrite app_nil_r.
  - apply NoDup_cons in Hnodup as [Hk Hnodup].
    assert (Bridge.deletedMessageIds (Bridge.markMessageAsDeleted k s)
            = Bridge.deletedMessageIds s ++ [k]) as Hd.
    { rewrite (proj1 (proj2 (proj2 (markMessageAsDeleted_fields k s)))).
      unfold add. rewrite (proj2 (has_false _ _)); [done|].
      apply Hfresh. by left. }
    cbn. change (fold_left Bridge.step (Bridge.Deleted <$> keys) ?s0)
      with (Bridge.run s0 (Bridge.Deleted <$> keys)).
    rewrite IH, Hd; [by rewrite <- app_assoc|done|].
    intros k' Hk'. rewrite Hd, elem_of_app, list_elem_of_singleton.
    intros [Hin| ->]; [|done]. apply (Hfresh k'); [by right|done].
Qed.

Lemma retractedKeys_S (k : nat) :
  retractedKeys (S k)
  = retractedKeys k ++ [lit "-100:" ++ numToStr (Z.of_nat (S k))].
Proof. unfold retractedKeys. by rewrite seq_S, fmap_app. Qed.

Lemma retractedKeys_fresh (k : nat) :
  lit "-100:" ++ numToStr (Z.of_nat (S k)) ∉ retractedKeys k.
Proof.
  unfold retractedKeys. intros (i & Heq & Hi)%list_elem_of_fmap.
  apply app_inv_head, numToStr_inj, Nat2Z.inj in Heq. subst i.
  apply elem_of_seq in Hi. lia.
Qed.

Lemma retractedKeys_sizeOf (n : nat) : sizeOf (retractedKeys n) = N.of_nat n.
Proof. unfold sizeOf, retractedKeys. by rewrite length_fmap, length_seq. Qed.

(** An update of the examples is queued by a bridge that has processed
    nothing. *)
Lemma arrival_queues (i : nat) (s : Bridge.t) :
  Bridge.config s = exampleConfig ->
  Bridge.hasTranslator s = false ->
  Bridge.processedMessageIds s = [] ->
  Bridge.step s (arrival i)
  = Bridge.queueMessage (lit "-100:" ++ numToStr (Z.of_nat i))
      (BridgeMessage.mk (Z.of_nat i) (lit "-100") (lit "Unknown") (lit "x")
         None 0)
      (lit "[From CN] Unknown: x") s.
Proof.
  intros Hc Ht Hp. unfold arrival. cbn [Bridge.step].
  unfold Bridge.handleUpdate, Bridge.normalizeMessage.
  rewrite Hc, Ht, Hp. reflexivity.
Qed.

(** A timer that fires for a message found deleted does what a retraction
    does. *)
Lemma fire_gone_is_retraction (handle : nat) (tm : Bridge.Timer)
    (send resend : Result Z) (s : Bridge.t) :
  Bridge.timers s !! handle = Some tm ->
  (Bridge.due tm <= Bridge.now s)%N ->
  Bridge.messageKey tm ∉ Bridge.deletedMessageIds s ->
  Bridge.fire handle (Returns false) send resend s
  = Bridge.markMessageAsDeleted (Bridge.messageKey tm)
      (Bridge.clearTimeout handle s).
Proof.
  intros Htm Hdue%N.leb_le Hkey%has_false.
  unfold Bridge.fire. rewrite Htm, Hdue. unfold Bridge.timerCallback.
  cbn [Bridge.deletedMessageIds Bridge.clearTimeout]. by rewrite Hkey.
Qed.

Lemma goneRound_invariant (k : nat) (s : Bridge.t) :
  roundInvariant k s -> roundInvariant (S k) (Bridge.run s (goneRound k)).
Proof.
  intros (Hc & Ht & Hp & Hdelay & Hnext & Hd).
  unfold goneRound, Bridge.run. cbn [fold_left].
  rewrite (arrival_queues (S k) s Hc Ht Hp). cbn [Bridge.step].
  set (key := lit "-100:" ++ numToStr (Z.of_nat (S k))).
  set (bm := BridgeMessage.mk _ _ _ _ _ _).
  set (txt := lit "[From CN] Unknown: x").
  set (s2 := Bridge.advance 30000 (Bridge.queueMessage key bm txt s)).
  assert (Bridge.timers s2 !! k
          = Some (Bridge.mkTimer (Bridge.now s + 30000) key bm txt)) as Htm.
  { cbn. rewrite Hnext, Hdelay. apply lookup_insert_eq. }
  assert (key ∉ Bridge.deletedMessageIds s2) as Hfresh.
  { cbn. rewrite Hd. apply retractedKeys_fresh. }
  rewrite (fire_gone_is_retraction k _ _ _ s2 Htm); [|cbn; lia|done].
  cbn [Bridge.messageKey]. unfold roundInvariant.
  destruct (markMessageAsDeleted_fields key (Bridge.clearTimeout k s2))
    as (-> & -> & -> & _).
  rewrite markMessageAsDeleted_nextTimer, retractedKeys_S.
  unfold Bridge.markMessageAsDeleted. cbn. rewrite Hd, Hnext.
  unfold add. rewrite (proj2 (has_false _ _)) by apply retractedKeys_fresh.
  repeat split; try done.
  - by destruct (_ !! key).
  - by destruct (_ !! key).
Qed.

Lemma allGone_invariant (n : nat) :
  roundInvariant n (Bridge.run (Bridge.new exampleConfig false) (allGone n)).
Proof.
  induction n as [|n IH]; [by repeat split|].
  unfold allGone in *. rewrite seq_S, fmap_app, concat_app.
  unfold Bridge.run in *. rewrite fold_left_app.
  change (concat (goneRound <$> [(0 + n)%nat])) with (goneRound n ++ []).
  rewrite app_nil_r. by apply goneRound_invariant.
Qed.




(** C3, on the bridge as it is. The tombstone set outgrows its bound:
    nothing cuts it back when a key is added to it, where the processed
    set is cut back after every key added. 1001 messages arrive one after
    the other and each is found deleted when its timer fires: the set
    holds 1001 keys. The same after 1001 calls of [markMessageAsDeleted]
    for different keys. *)
Lemma tombstones_exceed_bound :
  let byItself :=
    Bridge.run (Bridge.new exampleConfig false) (allGone 1001) in
  let retracted :=
    Bridge.run (Bridge.new exampleConfig false)
      (Bridge.Deleted <$> retractedKeys 1001) in
  sizeOf (Bridge.deletedMessageIds byItself) = 1001
  /\ ~ (sizeOf (Bridge.deletedMessageIds byItself) <= 1000)
  /\ sizeOf (Bridge.deletedMessageIds retracted) = 1001
  /\ ~ (sizeOf (Bridge.deletedMessageIds retracted) <= 1000).
Proof.
  cbn zeta.
  destruct (allGone_invariant 1001) as (_ & _ & _ & _ & _ & ->).
  rewrite run_retractions;
    [|apply retractedKeys_NoDup|intros k _; apply not_elem_of_nil].
  cbn [Bridge.deletedMessageIds Bridge.new app].
  rewrite retractedKeys_sizeOf. change (N.of_nat 1001) with 1001.
  repeat split; lia.
Qed.

(** The same on the path the bridge takes by itself: a timer that fires
    for a message found deleted adds the key to the tombstone set and
    cuts nothing back. *)
Lemma fire_retracted_grows (handle : nat) (tm : Bridge.Timer)
    (send resend : Result Z) (s : Bridge.t) :
  Bridge.timers s !! handle = Some tm ->
  (Bridge.due tm <= Bridge.now s)%N ->
  Bridge.messageKey tm ∉ Bridge.deletedMessageIds s ->
  Bridge.deletedMessageIds (Bridge.fire handle (Returns false) send resend s)
  = Bridge.deletedMessageIds s ++ [Bridge.messageKey tm].
Proof.
  intros Htm Hdue%N.leb_le Hkey%has_false.
  unfold Bridge.fire. rewrite Htm, Hdue. unfold Bridge.timerCallback.
  cbn [Bridge.deletedMessageIds Bridge.clearTimeout]. rewrite Hkey.
  rewrite (proj1 (proj2 (proj2 (markMessageAsDeleted_fields _ _)))).
  cbn. unfold add. by rewrite Hkey.
Qed.

(** Queueing under a key that is already pending replaces the entry but
    leaves the timer of the old entry live: nothing clears it. *)
Lemma queueMessage_keeps_timers (key : str) (bm : BridgeMessage.t)
    (txt : str) (s : Bridge.t) (h : nat) (tm : Bridge.Timer) :
  h <> Bridge.nextTimer s ->
  Bridge.timers s !! h = Some tm ->
  Bridge.timers (Bridge.queueMessage key bm txt s) !! h = Some tm.
Proof. intros Hh Htm. cbn. by rewrite lookup_insert_ne. Qed.

(** C1, on the bridge as it is. The same update arrives twice, 10 ms
    apart, well within the delay of 30 s. It is queued twice: there is one
    pending entry for the key, but two live timers. Both fire and both
    deliver: the message is sent twice. *)
Lemma duplicate_update_delivers_twice :
  let key := lit "-100:5" in
  let queued :=
    Bridge.run (Bridge.new exampleConfig false)
      [arrival 5; Bridge.Elapse 10; arrival 5] in
  let fired :=
    Bridge.run queued
      [Bridge.Elapse 30000;
       Bridge.Fire 0 (Returns true) (Returns 900%Z) (Returns 0%Z);
       Bridge.Fire 1 (Returns true) (Returns 901%Z) (Returns 0%Z)] in
  dom (Bridge.pendingMessages queued) = {[key]}
  /\ length (Bridge.timersFor key queued) = 2%nat
  /\ Bridge.messageKey <$> Bridge.timers queued !! 0%nat = Some key
  /\ Bridge.messageKey <$> Bridge.timers queued !! 1%nat = Some key
  /\ Bridge.deliveriesFor key fired = 2%nat
  /\ Bridge.outcome <$> Bridge.sendsFor key fired
     = [Returns 900%Z; Returns 901%Z].
Proof. vm_compute. repeat split. Qed.

(* ----------------------------------------------------------------- *)
(** ** Further properties of the queue *)
(* ----------------------------------------------------------------- *)

(** X1. An update whose key is in the processed set changes nothing: the
    message is not queued again. *)
Theorem handleUpdate_skips_processed (ctx : Telegram.Context)
    (tr : Translator.t) (s : Bridge.t) (bm : BridgeMessage.t) :
  Bridge.normalizeMessage s ctx = Some bm ->
  Bridge.keyOf bm ∈ Bridge.processedMessageIds s ->
  Bridge.handleUpdate ctx tr s = s.
Proof.
  intros Hbm Hin%has_true. unfold Bridge.handleUpdate. by rewrite Hbm, Hin.
Qed.

(** Message 5 arrives, is delivered after the delay, and arrives again. *)
Lemma handleUpdate_skips_processed_witness :
  let delivered5 :=
    Bridge.run oneQueued
      [Bridge.Elapse 30000;
       Bridge.Fire 0 (Returns true) (Returns 900%Z) (Returns 0%Z)] in
  Bridge.step delivered5 (arrival 5) = delivered5.
Proof.
  refine (handleUpdate_skips_processed _ _ _
            (BridgeMessage.mk 5 (lit "-100") (lit "Unknown") (lit "x") None 0)
            _ _).
  - vm_compute. reflexivity.
  - vm_compute. by left.
Defined.

(** X2. A timer that fires for a message the existence check finds
    deleted sends nothing, records the key as a tombstone and removes the
    pending entry. *)
Theorem fire_gone_sends_nothing (handle : nat) (tm : Bridge.Timer)
    (send resend : Result Z) (s : Bridge.t) :
  Bridge.timers s !! handle = Some tm ->
  (Bridge.due tm <= Bridge.now s)%N ->
  let s' := Bridge.fire handle (Returns false) send resend s in
  Bridge.outbox s' = Bridge.outbox s
  /\ Bridge.messageKey tm ∈ Bridge.deletedMessageIds s'
  /\ Bridge.pendingMessages s' !! Bridge.messageKey tm = None.
Proof.
  intros Htm Hdue%N.leb_le. cbn zeta.
  unfold Bridge.fire. rewrite Htm, Hdue. unfold Bridge.timerCallback.
  cbn [Bridge.deletedMessageIds Bridge.clearTimeout].
  destruct (has (Bridge.deletedMessageIds s) (Bridge.messageKey tm)) eqn:Hk.
  - cbn. split; [done|]. split; [by apply has_true|apply lookup_delete_eq].
  - destruct (markMessageAsDeleted_fields (Bridge.messageKey tm)
                (Bridge.clearTimeout handle s))
      as (_ & _ & Hd & Ho & Hp & _).
    rewrite Hd, Ho, Hp. split; [done|].
    split; [apply elem_of_add; by left|apply lookup_delete_eq].
Qed.

Lemma fire_gone_sends_nothing_witness :
  let s' :=
    Bridge.fire 0 (Returns false) (Returns 900%Z) (Returns 0%Z)
      (Bridge.advance 30000 oneQueued) in
  Bridge.outbox s' = []
  /\ lit "-100:5" ∈ Bridge.deletedMessageIds s'
  /\ Bridge.pendingMessages s' !! lit "-100:5" = None.
Proof.
  refine (fire_gone_sends_nothing 0%nat
            (Bridge.mkTimer 30000 (lit "-100:5")
               (BridgeMessage.mk 5 (lit "-100") (lit "Unknown") (lit "x")
                  None 0)
               (lit "[From CN] Unknown: x"))
            (Returns 900%Z) (Returns 0%Z) (Bridge.advance 30000 oneQueued)
            _ _).
  - vm_compute. reflexivity.
  - vm_compute. discriminate.
Defined.

(** X3. [stop] empties the pending map and clears the timer of every
    entry that was in it; it sends nothing. *)
Theorem stop_clears_pending (s : Bridge.t) :
  Bridge.pendingMessages (Bridge.stop s) = ∅
  /\ Bridge.outbox (Bridge.stop s) = Bridge.outbox s
  /\ forall key pending,
       Bridge.pendingMessages s !! key = Some pending ->
       Bridge.timers (Bridge.stop s) !! Bridge.timeout pending = None.
Proof.
  split; [apply stop_fields|]. split; [apply stop_fields|].
  unfold Bridge.stop. cbn.
  generalize (Bridge.pendingMessages s). intros m.
  induction m as [|k p m Hk Hfirst IH] using map_first_key_ind;
    intros key pending Hlookup; [done|].
  rewrite map_fold_insert_first_key by done. cbn.
  apply lookup_insert_Some in Hlookup as [[<- <-]|[_ Hlookup]].
  - apply lookup_delete_eq.
  - apply lookup_delete_None. right. by eapply IH.
Qed.

(* ----------------------------------------------------------------- *)
(** ** The client: a text sent in pieces *)
(* ----------------------------------------------------------------- *)

Section Client.
Import TelegramClient.
Context {Options : Type}.
Implicit Types (options : Options) (telegram : nat -> str -> Result Z).

Lemma substring_take_drop (s : str) (a b : N) :
  a <= b -> substring s a b = take (N.to_nat (b - a)) (drop (N.to_nat a) s).
Proof.
  intros Hab. unfold substring, sizeOf.
  destruct (decide (N.of_nat (length s) <= a)) as [Hlen|Hlen].
  - rewrite !drop_ge by lia. by rewrite !take_nil.
  - replace (N.min (N.min a _) (N.min b _)) with a by lia.
    destruct (decide (b <= N.of_nat (length s))).
    + f_equal. lia.
    + rewrite !take_ge; [done|rewrite length_drop; lia..].
Qed.

Lemma chunkAt_take_drop (text : str) (i : nat) :
  chunkAt text i
  = take (N.to_nat maxLength) (drop (i * N.to_nat maxLength) text).
Proof.
  unfold chunkAt. rewrite substring_take_drop by lia. f_equal; [lia|].
  f_equal. lia.
Qed.

Lemma chunkAt_concat (text : str) (n : nat) :
  concat (chunkAt text <$> seq 0 n) = take (n * N.to_nat maxLength) text.
Proof.
  induction n as [|n IH]; [done|].
  rewrite seq_S, fmap_app, concat_app, IH. cbn [fmap list_fmap concat plus].
  rewrite app_nil_r, chunkAt_take_drop, take_take_drop. f_equal. lia.
Qed.

Lemma chunkAt_sizeOf (text : str) (i : nat) :
  sizeOf (chunkAt text i)
  = N.min maxLength (sizeOf text - N.of_nat i * maxLength).
Proof.
  rewrite chunkAt_take_drop. unfold sizeOf.
  rewrite length_take, length_drop. lia.
Qed.

Lemma paced_cons (c : Effect Options) (rest : list (Effect Options)) :
  paced (c :: rest)
  = c :: (if decide (rest = []) then [] else [Sleep 100]) ++ paced rest.
Proof. by destruct rest. Qed.

(** The loop from its [i]-th iteration on, when every call succeeds. *)
Lemma sendChunks_returns telegram (chatId text : str) options
    (fuel i : nat) (messages : list Z) :
  (forall n chunk, exists m, telegram n chunk = Returns m) ->
  length messages = i ->
  sizeOf text <= (N.of_nat i + N.of_nat fuel) * maxLength ->
  exists (n : nat) (more : list Z),
    sendChunks fuel telegram chatId text options (N.of_nat i * maxLength)
      messages
    = Some (paced ((fun c => ApiSend chatId c options)
                   <$> (chunkAt text <$> seq i (n - i))),
            Returns (messages ++ more))
    /\ (i <= n)%nat
    /\ sizeOf text <= N.of_nat n * maxLength
    /\ ((i < n)%nat -> N.of_nat (n - 1) * maxLength < sizeOf text)
    /\ ((i < n)%nat ->
        exists m, head more = Some m /\ telegram i (chunkAt text i) = Returns m).
Proof.
  intros Hok. revert i messages.
  induction fuel as [|fuel IH]; intros i messages Hlen Hfuel.
  - exists i, []. cbn [sendChunks].
    replace (N.of_nat i * maxLength <? sizeOf text) with false
      by (symmetry; apply N.ltb_ge; lia).
    rewrite Nat.sub_diag, app_nil_r. repeat split; try done; lia.
  - cbn [sendChunks].
    destruct (N.of_nat i * maxLength <? sizeOf text) eqn:Hlt.
    2:{ apply N.ltb_ge in Hlt. exists i, [].
        rewrite Nat.sub_diag, app_nil_r. repeat split; try done; lia. }
    apply N.ltb_lt in Hlt. rewrite Hlen. fold (chunkAt text i).
    destruct (Hok i (chunkAt text i)) as [m Hm]. rewrite Hm.
    destruct (IH (S i) (messages ++ [m])) as (n & more & Heq & Hin & Hn & Hlast & _).
    { rewrite length_app. simpl. lia. }
    { lia. }
    replace (N.of_nat (S i) * maxLength) with (N.of_nat i * maxLength + maxLength)
      in Heq by lia.
    rewrite Heq. exists n, (m :: more).
    rewrite <- app_assoc. cbn [app].
    replace (n - i)%nat with (S (n - S i)) by lia.
    cbn [seq fmap list_fmap]. rewrite paced_cons.
    repeat split; try lia.
    + do 3 f_equal.
      destruct (decide (S i < n)%nat) as [Hmore|Hmore].
      * replace (N.of_nat i * maxLength + maxLength <? sizeOf text) with true
          by (symmetry; apply N.ltb_lt; specialize (Hlast Hmore); nia).
        replace (n - S i)%nat with (S (n - S (S i))) by lia.
        by cbn.
      * replace (N.of_nat i * maxLength + maxLength <? sizeOf text) with false
          by (symmetry; apply N.ltb_ge; replace n with (S i) in * by lia; lia).
        replace (n - S i)%nat with 0%nat by lia. by cbn.
    + intros _. destruct (decide (S i < n)%nat) as [Hmore|Hmore].
      * specialize (Hlast Hmore). lia.
      * replace (n - 1)%nat with i by lia. done.
    + intros _. by exists m.
Qed.

(** The loop from its [i]-th iteration on, when the call of iteration [k]
    is the first that fails. *)
Lemma sendChunks_throws telegram (chatId text : str) options
    (fuel i k : nat) (messages : list Z) (e : Error) :
  length messages = i ->
  (i <= k)%nat ->
  N.of_nat k * maxLength < sizeOf text ->
  (forall j, (i <= j < k)%nat -> exists m, telegram j (chunkAt text j) = Returns m) ->
  telegram k (chunkAt text k) = Throws e ->
  (k - i < fuel)%nat ->
  sendChunks fuel telegram chatId text options (N.of_nat i * maxLength) messages
  = Some (paced ((fun c => ApiSend chatId c options)
                 <$> (chunkAt text <$> seq i (S k - i))),
          Throws e).
Proof.
  intros Hlen Hik Hk Hok He. revert i messages Hlen Hik Hok.
  induction fuel as [|fuel IH]; intros i messages Hlen Hik Hok Hfuel; [lia|].
  cbn [sendChunks].
  replace (N.of_nat i * maxLength <? sizeOf text) with true
    by (symmetry; apply N.ltb_lt; nia).
  rewrite Hlen. fold (chunkAt text i).
  destruct (decide (i = k)) as [->|Hne].
  - rewrite He. by replace (S k - k)%nat with 1%nat by lia.
  - destruct (Hok i) as [m Hm]; [lia|]. rewrite Hm.
    assert (Heq := IH (S i) (messages ++ [m])).
    rewrite length_app in Heq. simpl in Heq.
    specialize (Heq ltac:(lia) ltac:(lia)
                  (fun j Hj => Hok j ltac:(lia)) ltac:(lia)).
    replace (N.of_nat (S i) * maxLength) with (N.of_nat i * maxLength + maxLength)
      in Heq by lia.
    rewrite Heq.
    replace (N.of_nat i * maxLength + maxLength <? sizeOf text) with true
      by (symmetry; apply N.ltb_lt; nia).
    replace (S k - i)%nat with (S (S (k - S i))) by lia.
    replace (k - i)%nat with (S (k - S i)) by lia.
    by cbn.
Qed.

End Client.

(** X5. [sendMessage] delivers a text whole, in pieces of at most 4096
    code units. When the client is initialized and every call of the API
    succeeds, the calls go to the destination chat with the caller's
    options, 100 ms apart; their texts are, in order, pieces of the text
    that put together give the text back; every piece but the last has
    4096 code units, and none is empty unless the text is. The message
    returned is the one the first call returned. *)
Theorem sendMessage_delivers_in_chunks {Options : Type}
    (self : TelegramClient.t) (telegram : nat -> str -> Result Z)
    (text : str) (options : Options) (fuel : nat) :
  TelegramClient.bot self = true ->
  (forall n chunk, exists m, telegram n chunk = Returns m) ->
  sizeOf text <= N.of_nat fuel * TelegramClient.maxLength ->
  exists (chunks : list str) (c0 : str) (first : Z),
    TelegramClient.sendMessage fuel self telegram text options
    = Some (paced ((fun c =>
                      TelegramClient.ApiSend
                        (Config.destinationChatId (TelegramClient.config self))
                        c options) <$> chunks),
            Returns (Some first))
    /\ head chunks = Some c0
    /\ telegram 0%nat c0 = Returns first
    /\ concat chunks = text
    /\ (forall (i : nat) (c : str), chunks !! i = Some c ->
          sizeOf c <= TelegramClient.maxLength
          /\ ((S i < length chunks)%nat -> sizeOf c = TelegramClient.maxLength)
          /\ (text <> [] -> c <> [])).
Proof.
  intros Hbot Hok Hfuel. unfold TelegramClient.sendMessage. rewrite Hbot.
  cbn [negb].
  destruct (TelegramClient.maxLength <? sizeOf text) eqn:Hlong.
  - apply N.ltb_lt in Hlong.
    destruct (sendChunks_returns telegram
                (Config.destinationChatId (TelegramClient.config self))
                text options fuel 0 [] Hok eq_refl)
      as (n & more & Heq & _ & Hn & Hlast & Hfirst); [lia|].
    change (N.of_nat 0 * TelegramClient.maxLength) with 0 in Heq.
    rewrite Heq. rewrite Nat.sub_0_r in *. cbn [app].
    assert (0 < n)%nat as Hpos.
    { destruct n; [|lia]. unfold TelegramClient.maxLength in *. lia. }
    destruct (Hfirst Hpos) as (first & Hhead & Htel). rewrite Hhead.
    exists (chunkAt text <$> seq 0 n), (chunkAt text 0), first.
    split; [done|]. split; [destruct n; [lia|done]|]. split; [done|]. split.
    + rewrite chunkAt_concat. apply take_ge. unfold sizeOf in *. lia.
    + intros i c Hc. apply list_lookup_fmap_Some in Hc as (j & -> & Hj).
      apply lookup_seq in Hj as [-> Hj]. cbn [plus].
      rewrite length_fmap, length_seq, chunkAt_sizeOf.
      specialize (Hlast Hpos). repeat split.
      * lia.
      * intros Hi. nia.
      * intros _ Hnil. assert (sizeOf (chunkAt text i) = 0) as H0 by by rewrite Hnil.
        rewrite chunkAt_sizeOf in H0. unfold TelegramClient.maxLength in *. nia.
  - apply N.ltb_ge in Hlong. destruct (Hok 0%nat text) as [m Hm]. rewrite Hm.
    exists [text], text, m. cbn. rewrite app_nil_r.
    split; [done|]. split; [done|]. split; [done|]. split; [done|].
    intros i c [-> <-]%list_lookup_singleton_Some.
    split; [done|]. split; [simpl; lia|done].
Qed.

(** A text of 5000 code units goes out in two calls. *)
Lemma sendMessage_delivers_in_chunks_witness :
  exists (chunks : list str) (c0 : str) (first : Z),
    TelegramClient.sendMessage 2 exampleClient acceptingApi longText
      (Some (lit "Markdown"))
    = Some (paced ((fun c =>
                      TelegramClient.ApiSend
                        (Config.destinationChatId
                           (TelegramClient.config exampleClient))
                        c (Some (lit "Markdown"))) <$> chunks),
            Returns (Some first))
    /\ head chunks = Some c0
    /\ acceptingApi 0%nat c0 = Returns first
    /\ concat chunks = longText
    /\ (forall (i : nat) (c : str), chunks !! i = Some c ->
          sizeOf c <= TelegramClient.maxLength
          /\ ((S i < length chunks)%nat -> sizeOf c = TelegramClient.maxLength)
          /\ (longText <> [] -> c <> [])).
Proof.
  apply sendMessage_delivers_in_chunks.
  - reflexivity.
  - intros n chunk. by eexists.
  - vm_compute. discriminate.
Defined.

(** X6. [sendMessage] stops at the first call that fails. When the calls
    for the pieces before the [k]-th have succeeded and the [k]-th fails,
    [sendMessage] throws that error; it has made the calls for the pieces
    0 to [k], which went out, and makes none for the pieces after. *)
Theorem sendMessage_stops_at_failure {Options : Type}
    (self : TelegramClient.t) (telegram : nat -> str -> Result Z)
    (text : str) (options : Options) (fuel k : nat) (e : Error) :
  TelegramClient.bot self = true ->
  (k = 0%nat \/ N.of_nat k * TelegramClient.maxLength < sizeOf text) ->
  (forall i, (i < k)%nat -> exists m, telegram i (chunkAt text i) = Returns m) ->
  telegram k (chunkAt text k) = Throws e ->
  (k < fuel)%nat ->
  TelegramClient.sendMessage fuel self telegram text options
  = Some (paced ((fun c =>
                    TelegramClient.ApiSend
                      (Config.destinationChatId (TelegramClient.config self))
                      c options) <$> (chunkAt text <$> seq 0 (S k))),
          Throws e).
Proof.
  intros Hbot Hk Hok He Hfuel. unfold TelegramClient.sendMessage.
  rewrite Hbot. cbn [negb].
  destruct (TelegramClient.maxLength <? sizeOf text) eqn:Hlong.
  - apply N.ltb_lt in Hlong.
    assert (Heq := sendChunks_throws telegram
                (Config.destinationChatId (TelegramClient.config self))
                text options fuel 0 k [] e eq_refl ltac:(lia)).
    rewrite Nat.sub_0_r in Heq.
    specialize (Heq ltac:(destruct Hk as [->|Hk];
                            [unfold TelegramClient.maxLength in *; lia|done])
                  (fun j Hj => Hok j ltac:(lia)) He Hfuel).
    change (N.of_nat 0 * TelegramClient.maxLength) with 0 in Heq.
    by rewrite Heq.
  - apply N.ltb_ge in Hlong.
    assert (k = 0%nat) as ->
      by (destruct Hk; [done|unfold TelegramClient.maxLength in *; nia]).
    assert (chunkAt text 0 = text) as Hc.
    { rewrite chunkAt_take_drop. cbn [Nat.mul drop]. apply take_ge.
      unfold sizeOf in *. lia. }
    rewrite Hc in He. rewrite He. cbn. by rewrite Hc.
Qed.

(** The second call fails: the first piece has gone out, the error is
    thrown. *)
Lemma sendMessage_stops_at_failure_witness :
  TelegramClient.sendMessage 2 exampleClient secondCallFails longText
    (Some (lit "Markdown"))
  = Some (paced ((fun c =>
                    TelegramClient.ApiSend
                      (Config.destinationChatId
                         (TelegramClient.config exampleClient))
                      c (Some (lit "Markdown")))
                 <$> (chunkAt longText <$> seq 0 2)),
          Throws (newError (lit "Bad Request: can't parse entities"))).
Proof.
  apply (sendMessage_stops_at_failure exampleClient secondCallFails longText
           (Some (lit "Markdown")) 2 1).
  - reflexivity.
  - right. vm_compute. reflexivity.
  - intros [|i] Hi; [by eexists|lia].
  - reflexivity.
  - lia.
Defined.

(* ----------------------------------------------------------------- *)
(** ** The Google backend: a text cut into chunks *)
(* ----------------------------------------------------------------- *)

Section Chunks.
Import GoogleTranslator.

Lemma slice_take_drop (s : str) (a b : Z) :
  (0 <= a <= b)%Z -> (b <= Z.of_nat (length s))%Z ->
  slice s a b = take (Z.to_nat (b - a)) (drop (Z.to_nat a) s).
Proof.
  intros Hab Hb. unfold slice.
  replace (a <? 0)%Z with false by (symmetry; apply Z.ltb_ge; lia).
  replace (b <? 0)%Z with false by (symmetry; apply Z.ltb_ge; lia).
  by rewrite !Z.min_l by lia.
Qed.

(** The loop when the limit is positive: it ends, and what it adds is the
    rest of the text in pieces. *)
Lemma chunkLoop_returns (fuel : nat) (text : str) (m start : Z)
    (chunks : list str) :
  (0 < m)%Z ->
  (0 <= start <= Z.of_nat (length text))%Z ->
  (Z.of_nat (length text) - start <= Z.of_nat fuel * m)%Z ->
  exists more,
    chunkLoop fuel text m start chunks = Some (chunks ++ more)
    /\ concat more = drop (Z.to_nat start) text
    /\ (more = [] <-> start = Z.of_nat (length text))
    /\ forall (i : nat) (c : str), more !! i = Some c ->
         (0 < Z.of_nat (length c) <= m)%Z
         /\ ((S i < length more)%nat -> Z.of_nat (length c) = m).
Proof.
  intros Hm. revert start chunks.
  induction fuel as [|fuel IH]; intros start chunks Hstart Hfuel.
  - exists []. cbn [chunkLoop].
    replace (start <? Z.of_nat (length text))%Z with false
      by (symmetry; apply Z.ltb_ge; lia).
    rewrite app_nil_r, drop_ge by lia. repeat split; try done; lia.
  - cbn [chunkLoop].
    destruct (start <? Z.of_nat (length text))%Z eqn:Hlt.
    2:{ apply Z.ltb_ge in Hlt. exists [].
        rewrite app_nil_r, drop_ge by lia. repeat split; try done; lia. }
    apply Z.ltb_lt in Hlt.
    set (end_ := Z.min (start + m) (Z.of_nat (length text))).
    destruct (IH end_ (chunks ++ [slice text start end_]))
      as (more & Heq & Hconcat & Hnil & Hsizes); [lia|nia|].
    rewrite Heq, <- app_assoc. exists (slice text start end_ :: more).
    split; [done|].
    assert (Z.of_nat (length (slice text start end_)) = end_ - start)%Z as Hlen.
    { rewrite slice_take_drop, length_take, length_drop by lia. lia. }
    split; [|split; [split; [done|lia]|]].
    + cbn [concat]. rewrite Hconcat, slice_take_drop by lia.
      replace (drop (Z.to_nat end_) text)
        with (drop (Z.to_nat (end_ - start)) (drop (Z.to_nat start) text))
        by (rewrite drop_drop; f_equal; lia).
      apply take_drop.
    + intros [|i] c Hc; cbn in Hc.
      * injection Hc as <-. rewrite Hlen. split; [lia|].
        intros Hmore. cbn in Hmore.
        assert (more <> []) as Hne by (destruct more; [simpl in Hmore; lia|done]).
        rewrite Hnil in Hne. lia.
      * destruct (Hsizes i c Hc) as [? Hfull]. split; [done|].
        intros Hi. apply Hfull. cbn in Hi. lia.
Qed.

(** The loop when the limit is negative and the text is not empty: [start]
    never reaches the length, so the loop does not end. *)
Lemma chunkLoop_diverges (fuel : nat) (text : str) (m start : Z)
    (chunks : list str) :
  (m < 0)%Z -> (start <= 0)%Z -> text <> [] ->
  chunkLoop fuel text m start chunks = None.
Proof.
  intros Hm Hstart Htext. revert start chunks Hstart.
  assert (0 < length text)%nat as Hlen by (destruct text; [done|simpl; lia]).
  induction fuel as [|fuel IH]; intros start chunks Hstart; cbn [chunkLoop];
    replace (start <? Z.of_nat (length text))%Z with true
      by (symmetry; apply Z.ltb_lt; lia); [done|].
  apply IH. lia.
Qed.

End Chunks.

(** X7. [splitIntoChunks] with a positive limit cuts the text into pieces
    that, put together in order, give the text back: every piece has at
    most [maxLength] code units, every piece but the last has exactly
    that many, and none is empty unless the text is. The loop ends within
    [fuel] iterations as soon as [fuel * maxLength] reaches the length of
    the text. *)
Theorem splitIntoChunks_partition (fuel : nat) (text : str) (m : Z) :
  (0 < m)%Z ->
  (Z.of_nat (length text) <= Z.of_nat fuel * m)%Z ->
  exists chunks,
    GoogleTranslator.splitIntoChunks fuel text (Some m) = Some chunks
    /\ concat chunks = text
    /\ chunks <> []
    /\ forall (i : nat) (c : str), chunks !! i = Some c ->
         (Z.of_nat (length c) <= m)%Z
         /\ ((S i < length chunks)%nat -> Z.of_nat (length c) = m)
         /\ (text <> [] -> c <> []).
Proof.
  intros Hm Hfuel. unfold GoogleTranslator.splitIntoChunks.
  replace (m =? 0)%Z with false by (symmetry; apply Z.eqb_neq; lia).
  cbn [orb].
  destruct (Z.of_nat (length text) <=? m)%Z eqn:Hshort.
  - apply Z.leb_le in Hshort. exists [text]. cbn. rewrite app_nil_r.
    split; [done|]. split; [done|]. split; [done|].
    intros i c [-> <-]%list_lookup_singleton_Some.
    split; [done|]. split; [simpl; lia|done].
  - apply Z.leb_gt in Hshort.
    destruct (chunkLoop_returns fuel text m 0 [] Hm)
      as (chunks & Heq & Hconcat & Hnil & Hsizes); [lia|lia|].
    exists chunks. split; [done|]. split; [done|].
    split; [rewrite Hnil; lia|].
    intros i c Hc. destruct (Hsizes i c Hc) as [Hlen Hfull].
    split; [lia|]. split; [done|]. intros _ ->. simpl in Hlen. lia.
Qed.

(** Eight code units in chunks of three. *)
Lemma splitIntoChunks_partition_witness :
  exists chunks,
    GoogleTranslator.splitIntoChunks 3 (lit "abcdefgh") (Some 3%Z) = Some chunks
    /\ concat chunks = lit "abcdefgh"
    /\ chunks <> []
    /\ forall (i : nat) (c : str), chunks !! i = Some c ->
         (Z.of_nat (length c) <= 3)%Z
         /\ ((S i < length chunks)%nat -> Z.of_nat (length c) = 3%Z)
         /\ (lit "abcdefgh" <> [] -> c <> []).
Proof.
  apply splitIntoChunks_partition.
  - lia.
  - vm_compute. discriminate.
Defined.

(** X8. [splitIntoChunks] with a negative limit: the empty text gives no
    piece at all (the empty array, not the array of the text), and on a
    text that is not empty the loop never ends, whatever the number of
    iterations allowed. *)
Theorem splitIntoChunks_negative_limit (text : str) (m : Z) :
  (m < 0)%Z ->
  forall fuel,
    GoogleTranslator.splitIntoChunks fuel text (Some m)
    = if decide (text = []) then Some [] else None.
Proof.
  intros Hm fuel. unfold GoogleTranslator.splitIntoChunks.
  replace (m =? 0)%Z with false by (symmetry; apply Z.eqb_neq; lia).
  replace (Z.of_nat (length text) <=? m)%Z with false
    by (symmetry; apply Z.leb_gt; lia).
  cbn [orb]. destruct (decide (text = [])) as [->|Htext].
  - by destruct fuel.
  - by apply chunkLoop_diverges.
Qed.

(** A limit of -2 on a text of three code units: a hundred iterations do
    not end the loop. *)
Lemma splitIntoChunks_negative_limit_witness :
  GoogleTranslator.splitIntoChunks 100 (lit "abc") (Some (-2)%Z) = None.
Proof.
  exact (splitIntoChunks_negative_limit (lit "abc") (-2)%Z eq_refl 100%nat).
Defined.

(* ----------------------------------------------------------------- *)
(** ** The updates the bridge accepts *)
(* ----------------------------------------------------------------- *)

Section Filter.
Import Bridge.

Lemma trimStart_head (s : str) (c : N) (rest : str) :
  trimStart s = c :: rest -> isWhiteSpace c = false /\ c ∈ s.
Proof.
  induction s as [|d s IH]; simpl; [done|].
  destruct (isWhiteSpace d) eqn:Hd.
  - intros [? ?]%IH. split; [done|by right].
  - intros [= -> _]. split; [done|by left].
Qed.

Lemma trim_not_blank (s : str) :
  trim s <> [] <-> exists c, c ∈ s /\ isWhiteSpace c = false.
Proof.
  split.
  - intros Hne. destruct (trimStart s) as [|c rest] eqn:Hs.
    + unfold trim in Hne. by rewrite Hs in Hne.
    + exists c. by destruct (trimStart_head s c rest Hs).
  - intros (c & Hin & Hc) Hnil.
    pose proof (trim_keeps s c Hin Hc) as Hc'. rewrite Hnil in Hc'.
    by apply elem_of_nil in Hc'.
Qed.

Lemma pretty_N_go_numerals (x : N) (s : string) :
  Forall (fun a => isNumeral (N_of_ascii a) = true) (list_ascii_of_string s) ->
  Forall (fun a => isNumeral (N_of_ascii a) = true)
    (list_ascii_of_string (pretty_N_go x s)).
Proof.
  revert s. induction (N.lt_wf_0 x) as [x _ IH]; intros s Hs.
  assert (x = 0 \/ 0 < x) as [->|Hx] by lia; [by rewrite pretty_N_go_0|].
  rewrite pretty_N_go_step by done. apply IH; [by apply N.div_lt|].
  cbn. constructor; [|done].
  unfold pretty_N_char. by repeat case_match.
Qed.

Lemma numToStr_numerals (z : Z) : Forall (fun c => isNumeral c = true) (numToStr z).
Proof.
  unfold numToStr, lit. apply Forall_fmap.
  assert (forall p : positive,
            Forall (fun a => isNumeral (N_of_ascii a) = true)
              (list_ascii_of_string (pretty (N.pos p)))) as Hpos.
  { intros p. unfold pretty, pretty_N. rewrite decide_False by done.
    by apply pretty_N_go_numerals. }
  destruct z as [|p|p]; unfold pretty, pretty_Z.
  - by repeat constructor.
  - apply Hpos.
  - cbn. constructor; [done|]. apply Hpos.
Qed.

(** Two texts with the same separator that is in neither head are equal
    part by part. *)
Lemma app_sep_inj (sep : N) (a a' b b' : str) :
  sep ∉ a -> sep ∉ a' -> a ++ sep :: b = a' ++ sep :: b' -> a = a' /\ b = b'.
Proof.
  revert a'. induction a as [|x a IH]; intros [|x' a'] Ha Ha' Heq; simpl in Heq.
  - by injection Heq.
  - injection Heq as <- _. exfalso. apply Ha'. by left.
  - injection Heq as -> _. exfalso. apply Ha. by left.
  - injection Heq as -> Heq.
    destruct (IH a') as [-> ->]; [| |done|done].
    + intros ?. apply Ha. by right.
    + intros ?. apply Ha'. by right.
Qed.

Lemma normalizeMessage_Some (s : Bridge.t) (ctx : Telegram.Context)
    (bm : BridgeMessage.t) :
  normalizeMessage s ctx = Some bm ->
  exists message,
    Telegram.message ctx = Some message
    /\ Telegram.text message = Some (BridgeMessage.text bm)
    /\ BridgeMessage.text bm <> []
    /\ (forall from, Telegram.from message = Some from ->
          Telegram.is_bot from = false)
    /\ BridgeMessage.id bm = Telegram.message_id message
    /\ BridgeMessage.chatId bm
       = numToStr (Telegram.chat_id (Telegram.chat message))
    /\ BridgeMessage.replyToId bm = Telegram.reply_to_message message
    /\ (BridgeMessage.chatId bm = Config.sourceChatId (config s)
        \/ exists u, Telegram.chat_username (Telegram.chat message) = Some u
             /\ u <> []
             /\ u = replace (Config.sourceChatId (config s)) (lit "@") [])
    /\ BridgeMessage.author bm <> [].
Proof.
  unfold normalizeMessage.
  destruct (Telegram.message ctx) as [message|]; [|done].
  destruct (Telegram.text message) as [text|] eqn:Htext; [|done].
  cbn [optTruthy negb]. destruct text as [|c text]; [done|]. cbn [truthy negb].
  destruct (match Telegram.from message with
            | Some from => Telegram.is_bot from
            | None => false
            end) eqn:Hbot; [done|].
  destruct (negb _ && negb _) eqn:Hchat; [done|].
  intros [= <-]. exists message. cbn.
  split; [done|]. split; [done|]. split; [done|]. split.
  { intros from Hfrom. by rewrite Hfrom in Hbot. }
  split; [done|]. split; [done|]. split; [done|]. split.
  { apply andb_false_iff in Hchat as [Hid|Hname].
    - left. apply negb_false_iff, bool_decide_eq_true in Hid. done.
    - right. apply negb_false_iff in Hname.
      destruct (Telegram.chat_username (Telegram.chat message)) as [u|]; [|done].
      apply andb_prop in Hname as [Hu%truthy_true Heq%bool_decide_eq_true].
      by exists u. }
  destruct (Telegram.from message) as [from|]; [|done].
  destruct (Telegram.first_name from) as [[|? ?]|],
    (Telegram.last_name from) as [[|? ?]|],
    (Telegram.username from) as [[|? ?]|]; cbn; try done.
Qed.

End Filter.

(** X9. What [normalizeMessage] lets through: a message with a text that
    is not empty, not sent by a bot, from the source chat (by its id, or
    by its username when the configured chat is [@username]). The author
    it records is never empty: the names joined, or [@username], or
    [Unknown]. So the formatter shows that author as it is: its own
    replacement of an empty author by [Unknown] is never used for a
    relayed message. *)
Theorem normalizeMessage_accepts (s : Bridge.t) (ctx : Telegram.Context)
    (bm : BridgeMessage.t) (self : MessageProcessor.t) :
  Bridge.normalizeMessage s ctx = Some bm ->
  (exists message,
     Telegram.message ctx = Some message
     /\ Telegram.text message = Some (BridgeMessage.text bm)
     /\ BridgeMessage.text bm <> []
     /\ (forall from, Telegram.from message = Some from ->
           Telegram.is_bot from = false)
     /\ (numToStr (Telegram.chat_id (Telegram.chat message))
         = Config.sourceChatId (Bridge.config s)
         \/ exists u, Telegram.chat_username (Telegram.chat message) = Some u
              /\ u <> []
              /\ u = replace (Config.sourceChatId (Bridge.config s)) (lit "@") []))
  /\ BridgeMessage.author bm <> []
  /\ (MessageProcessor.process self bm).2
     = Returns
         (MessageProcessor.replyPrefix (BridgeMessage.replyToId bm)
          ++ (lit "[From CN] " ++ BridgeMessage.author bm ++ lit ": "
              ++ MessageProcessor.outputText self (BridgeMessage.text bm))
          ++ (if MessageProcessor.translationShowOriginal self
                 && MessageProcessor.translationEnabled self
              then MessageProcessor.newline ++ lit "Original: "
                   ++ BridgeMessage.text bm
              else [])).
Proof.
  intros Hbm.
  destruct (normalizeMessage_Some s ctx bm Hbm)
    as (message & Hm & Ht & Hne & Hbot & _ & Hchat & _ & Hsrc & Hauthor).
  split; [|split; [done|]].
  - exists message. rewrite <- Hchat. done.
  - unfold MessageProcessor.process. cbn [snd].
    rewrite (orElse_truthy _ _ Hauthor).
    destruct (_ && _); [|by rewrite app_nil_r].
    by rewrite <- !app_assoc.
Qed.

(** Message 7 of the source chat, signed Li Wei. *)
Lemma normalizeMessage_accepts_witness :
  let bm :=
    BridgeMessage.mk 7 (lit "-100") (lit "Li Wei") (lit "hello") None
      1700000000 in
  let self := MessageProcessor.mk None (Some exampleConfig) in
  BridgeMessage.author bm <> []
  /\ (MessageProcessor.process self bm).2
     = Returns
         (MessageProcessor.replyPrefix (BridgeMessage.replyToId bm)
          ++ (lit "[From CN] " ++ BridgeMessage.author bm ++ lit ": "
              ++ MessageProcessor.outputText self (BridgeMessage.text bm))
          ++ (if MessageProcessor.translationShowOriginal self
                 && MessageProcessor.translationEnabled self
              then MessageProcessor.newline ++ lit "Original: "
                   ++ BridgeMessage.text bm
              else [])).
Proof.
  cbn zeta.
  refine (proj2 (normalizeMessage_accepts (Bridge.new exampleConfig false)
                   signedContext _ _ _)).
  vm_compute. reflexivity.
Defined.

(** X10. Messages the bridge accepts have the same key only when they are
    the same message of the same chat: the chat id is printed as a
    number, which has no colon, so the key [chatId:id] can be read back
    in one way only. *)
Theorem keyOf_injective (s1 s2 : Bridge.t) (ctx1 ctx2 : Telegram.Context)
    (bm1 bm2 : BridgeMessage.t) :
  Bridge.normalizeMessage s1 ctx1 = Some bm1 ->
  Bridge.normalizeMessage s2 ctx2 = Some bm2 ->
  Bridge.keyOf bm1 = Bridge.keyOf bm2 ->
  BridgeMessage.chatId bm1 = BridgeMessage.chatId bm2
  /\ BridgeMessage.id bm1 = BridgeMessage.id bm2.
Proof.
  intros H1 H2 Hkey.
  destruct (normalizeMessage_Some s1 ctx1 bm1 H1)
    as (m1 & _ & _ & _ & _ & _ & Hc1 & _).
  destruct (normalizeMessage_Some s2 ctx2 bm2 H2)
    as (m2 & _ & _ & _ & _ & _ & Hc2 & _).
  unfold Bridge.keyOf in Hkey.
  assert (forall z, (58 : N) ∉ numToStr z) as Hcolon.
  { intros z Hin. pose proof (numToStr_numerals z) as Hall.
    rewrite Forall_forall in Hall. by apply Hall in Hin. }
  change (lit ":") with [58 : N] in Hkey. cbn [app] in Hkey.
  apply app_sep_inj in Hkey as [Hchat Hid]; [|rewrite ?Hc1, ?Hc2; apply Hcolon..].
  split; [done|]. by apply numToStr_inj.
Qed.

(** The same message seen twice, once signed and once not: one key, one
    chat, one id. *)
Lemma keyOf_injective_witness :
  let bm1 :=
    BridgeMessage.mk 7 (lit "-100") (lit "Li Wei") (lit "hello") None
      1700000000 in
  let bm2 :=
    BridgeMessage.mk 7 (lit "-100") (lit "Unknown") (lit "hello") None
      1700000000 in
  BridgeMessage.chatId bm1 = BridgeMessage.chatId bm2
  /\ BridgeMessage.id bm1 = BridgeMessage.id bm2.
Proof.
  cbn zeta.
  refine (keyOf_injective (Bridge.new exampleConfig false)
            (Bridge.new exampleConfig false) signedContext unsignedContext
            _ _ _ _ _).
  - vm_compute. reflexivity.
  - vm_compute. reflexivity.
  - reflexivity.
Defined.

(** X11. [shouldProcess] holds of a message exactly when its text has a
    code unit that is not white space: a text of blanks and line ends
    only is turned down. *)
Theorem shouldProcess_iff_not_blank (bm : BridgeMessage.t) :
  MessageProcessor.shouldProcess bm = true
  <-> exists c, c ∈ BridgeMessage.text bm /\ isWhiteSpace c = false.
Proof.
  unfold MessageProcessor.shouldProcess. rewrite <- trim_not_blank.
  rewrite andb_true_iff, truthy_true, Nat.ltb_lt. split.
  - intros [_ Hlen] Hnil. rewrite Hnil in Hlen. simpl in Hlen. lia.
  - intros Hne. split.
    + intros Hnil. by rewrite Hnil in Hne.
    + destruct (trim _); [done|simpl; lia].
Qed.



(* ----------------------------------------------------------------- *)
(** ** The relay as a whole: what is sent, and when *)
(* ----------------------------------------------------------------- *)

Section Relay.
Import Bridge.

Lemma handleUpdate_queues (ctx : Telegram.Context) (tr : Translator.t)
    (s : Bridge.t) :
  handleUpdate ctx tr s = s
  \/ exists bm txt,
       normalizeMessage s ctx = Some bm
       /\ MessageProcessor.shouldProcess bm = true
       /\ (MessageProcessor.process
             (processorOf (config s) (hasTranslator s) tr) bm).2 = Returns txt
       /\ handleUpdate ctx tr s = queueMessage (keyOf bm) bm txt s.
Proof.
  unfold handleUpdate.
  destruct (normalizeMessage s ctx) as [bm|]; [|by left].
  destruct (has (processedMessageIds s) (keyOf bm)); [by left|].
  destruct (MessageProcessor.shouldProcess bm) eqn:Hshould; [|by left].
  right. exists bm. eexists. split; [done|]. split; [done|].
  split; reflexivity.
Qed.

(** The fields no handler writes. *)
Lemma delivered_constants (key : str) (s : Bridge.t) :
  hasTranslator (delivered key s) = hasTranslator s
  /\ messageDelayMs (delivered key s) = messageDelayMs s
  /\ now (delivered key s) = now s.
Proof.
  unfold delivered. cbn.
  destruct (1000 <? sizeOf (add _ _)); cbn;
    destruct (1000 <? sizeOf (deletedMessageIds _)); by cbn.
Qed.

Lemma markMessageAsDeleted_constants (key : str) (s : Bridge.t) :
  hasTranslator (markMessageAsDeleted key s) = hasTranslator s
  /\ messageDelayMs (markMessageAsDeleted key s) = messageDelayMs s
  /\ now (markMessageAsDeleted key s) = now s.
Proof.
  unfold markMessageAsDeleted. cbn. by destruct (pendingMessages s !! key).
Qed.

Lemma stop_constants (s : Bridge.t) :
  hasTranslator (stop s) = hasTranslator s
  /\ messageDelayMs (stop s) = messageDelayMs s
  /\ now (stop s) = now s.
Proof.
  unfold stop. cbn.
  generalize (pendingMessages s) at 1 2 3. intros m.
  induction m as [|k p m Hk Hfold IH] using map_first_key_ind.
  - by rewrite map_fold_empty.
  - rewrite map_fold_insert_first_key by done. cbn. done.
Qed.

Lemma timerCallback_constants (handle : nat) (tm : Timer)
    (messageExists : Result bool) (send resend : Result Z) (s : Bridge.t) :
  let s' := timerCallback handle tm messageExists send resend s in
  hasTranslator s' = hasTranslator s
  /\ messageDelayMs s' = messageDelayMs s
  /\ now s' = now s.
Proof.
  cbn zeta. unfold timerCallback.
  destruct (has (deletedMessageIds s) (messageKey tm)); [done|].
  destruct messageExists as [[]|];
    [..|apply markMessageAsDeleted_constants|];
    (destruct send as [?|err];
     [by rewrite !(proj1 (delivered_constants _ _)),
           !(proj1 (proj2 (delivered_constants _ _))),
           !(proj2 (proj2 (delivered_constants _ _)))
     |destruct (isParseError err);
      [destruct resend;
       [by rewrite !(proj1 (delivered_constants _ _)),
           !(proj1 (proj2 (delivered_constants _ _))),
           !(proj2 (proj2 (delivered_constants _ _)))|done]|done]]).
Qed.

Lemma step_constants (s : Bridge.t) (ev : Event) :
  hasTranslator (step s ev) = hasTranslator s
  /\ messageDelayMs (step s ev) = messageDelayMs s
  /\ now (step s ev)
     = now s + match ev with Elapse ms => ms | _ => 0 end.
Proof.
  destruct ev as [ctx tr|key|ms|h ex send resend|]; cbn [step];
    rewrite ?N.add_0_r.
  - by destruct (handleUpdate_cases ctx tr s) as [->|(bm & txt & _ & _ & ->)].
  - apply markMessageAsDeleted_constants.
  - done.
  - unfold fire. destruct (timers s !! h) as [tm|]; [|done].
    destruct (due tm <=? now s); [|done].
    by destruct (timerCallback_constants h tm ex send resend
                   (clearTimeout h s)) as (-> & -> & ->).
  - apply stop_constants.
Qed.

Lemma run_constants (s : Bridge.t) (evs : list Event) :
  config (run s evs) = config s
  /\ hasTranslator (run s evs) = hasTranslator s
  /\ messageDelayMs (run s evs) = messageDelayMs s.
Proof.
  induction evs as [|ev evs IH] using rev_ind; [done|].
  rewrite run_snoc, step_config.
  destruct (step_constants (run s evs) ev) as (-> & -> & _). done.
Qed.

(** What a callback adds to the calls made. *)
Lemma timerCallback_calls (handle : nat) (tm : Timer)
    (messageExists : Result bool) (send resend : Result Z) (s : Bridge.t) :
  outbox (timerCallback handle tm messageExists send resend s)
  = outbox s
    ++ if has (deletedMessageIds s) (messageKey tm) then []
       else callsOf handle tm messageExists send resend.
Proof.
  unfold timerCallback, callsOf.
  destruct (has (deletedMessageIds s) (messageKey tm));
    [by rewrite app_nil_r|].
  destruct messageExists as [[]|];
    [..|rewrite app_nil_r; apply markMessageAsDeleted_fields|];
    (destruct send as [?|err];
     [by rewrite delivered_outbox
     |destruct (isParseError err);
      [destruct resend; [rewrite delivered_outbox|];
       cbn; by rewrite <- app_assoc
      |done]]).
Qed.

(** The timers a step leaves are timers that were there, or the one it has
    just set. *)
Lemma step_timers (s : Bridge.t) (ev : Event) (h : nat) (tm : Timer) :
  timers (step s ev) !! h = Some tm ->
  timers s !! h = Some tm
  \/ h = nextTimer s
     /\ due tm = now s + timerDelay (messageDelayMs s)
     /\ exists ctx tr bm,
          ev = Update ctx tr
          /\ normalizeMessage s ctx = Some bm
          /\ MessageProcessor.shouldProcess bm = true
          /\ messageKey tm = keyOf bm
          /\ (MessageProcessor.process
                (processorOf (config s) (hasTranslator s) tr) bm).2
             = Returns (timerText tm).
Proof.
  destruct ev as [ctx tr|key|ms|h' ex send resend|]; cbn [step].
  - destruct (handleUpdate_queues ctx tr s)
      as [->|(bm & txt & Hbm & Hshould & Htxt & ->)]; [by left|].
    cbn. intros [[<- <-]|[_ ?]]%lookup_insert_Some; [|by left].
    right. split; [done|]. split; [done|]. by exists ctx, tr, bm.
  - intros Htm. left. by eapply lookup_weaken, markMessageAsDeleted_timers.
  - by left.
  - intros Htm. left. unfold fire in Htm.
    destruct (timers s !! h') as [tm'|] eqn:Hh'; [|done].
    destruct (due tm' <=? now s); [|done].
    eapply lookup_weaken in Htm; [|apply timerCallback_timers].
    cbn in Htm. by apply lookup_delete_Some in Htm as [_ ?].
  - intros Htm. left. by eapply lookup_weaken, stop_fields.
Qed.

(** The calls a step adds: none, unless it is the callback of a live timer
    that is due. *)
Lemma step_outbox (s : Bridge.t) (ev : Event) :
  outbox (step s ev) = outbox s
  \/ exists h tm messageExists send resend,
       ev = Fire h messageExists send resend
       /\ timers s !! h = Some tm
       /\ due tm <= now s
       /\ outbox (step s ev)
          = outbox s
            ++ if has (deletedMessageIds s) (messageKey tm) then []
               else callsOf h tm messageExists send resend.
Proof.
  destruct ev as [ctx tr|key|ms|h ex send resend|]; cbn [step].
  - left. by destruct (handleUpdate_cases ctx tr s) as [->|(bm & txt & _ & _ & ->)].
  - left. apply markMessageAsDeleted_fields.
  - by left.
  - unfold fire. destruct (timers s !! h) as [tm|] eqn:Hh; [|by left].
    destruct (due tm <=? now s) eqn:Hdue; [|by left].
    right. exists h, tm, ex, send, resend. apply N.leb_le in Hdue.
    split; [done|]. split; [done|]. split; [done|].
    by rewrite timerCallback_calls.
  - left. apply stop_fields.
Qed.

Lemma callsOf_Forall (h : nat) (tm : Timer) (messageExists : Result bool)
    (send resend : Result Z) :
  Forall (fun c => forKey c = messageKey tm /\ viaTimer c = h
                   /\ sentText c = timerText tm)
    (callsOf h tm messageExists send resend).
Proof.
  unfold callsOf.
  destruct messageExists as [[]|]; [|done|];
    (destruct send as [?|err]; [by repeat constructor|];
     destruct (isParseError err); by repeat constructor).
Qed.

Lemma relayedFrom_snoc (config : Config.t) (tr : bool) (evs : list Event)
    (ev : Event) (key text : str) :
  relayedFrom config tr evs key text ->
  relayedFrom config tr (evs ++ [ev]) key text.
Proof.
  intros (ctx & t & bm & Hin & H). exists ctx, t, bm. split; [|done].
  apply elem_of_app. by left.
Qed.

Lemma run_relayedFrom (config : Config.t) (tr : bool) (evs : list Event) :
  let s := run (Bridge.new config tr) evs in
  (forall h tm, timers s !! h = Some tm ->
     relayedFrom config tr evs (messageKey tm) (timerText tm))
  /\ (forall c, c ∈ outbox s ->
        relayedFrom config tr evs (forKey c) (sentText c)).
Proof.
  cbn zeta. induction evs as [|ev evs [IHt IHo]] using rev_ind.
  - split; [done|]. intros c Hc. by apply elem_of_nil in Hc.
  - rewrite run_snoc. set (s := run (Bridge.new config tr) evs) in *.
    destruct (run_constants (Bridge.new config tr) evs) as (Hc & Ht & _).
    fold s in Hc, Ht. cbn in Hc, Ht.
    split.
    + intros h tm [Hold|(_ & _ & ctx & t & bm & -> & Hbm & Hsh & Hkey & Htxt)]%step_timers.
      * by apply relayedFrom_snoc, (IHt h).
      * exists ctx, t, bm. split; [apply elem_of_app; right; by left|].
        rewrite <- (normalizeMessage_config s) by done.
        rewrite Hc, Ht in Htxt. done.
    + intros c Hc'.
      destruct (step_outbox s ev)
        as [Hsame|(h & tm & ex & send & resend & _ & Htm & _ & Hadd)].
      * rewrite Hsame in Hc'. by apply relayedFrom_snoc, IHo.
      * rewrite Hadd in Hc'. apply elem_of_app in Hc' as [Hc'|Hc'].
        { by apply relayedFrom_snoc, IHo. }
        destruct (has _ _); [by apply elem_of_nil in Hc'|].
        pose proof (callsOf_Forall h tm ex send resend) as Hall.
        rewrite Forall_forall in Hall.
        destruct (Hall c Hc') as (-> & _ & ->).
        by apply relayedFrom_snoc, (IHt h).
Qed.

Lemma callsOf_oneDelivery (h : nat) (tm : Timer) (messageExists : Result bool)
    (send resend : Result Z) :
  oneDelivery (callsOf h tm messageExists send resend).
Proof.
  unfold callsOf.
  destruct messageExists as [[]|]; [|done|];
    (destruct send as [?|err]; [done|];
     destruct (isParseError err) eqn:Hp; [|done];
     cbn; split; [done|]; split; [by exists err|done]).
Qed.

(** A step adds calls of a timer only when it is the callback of that
    timer, live and due. *)
Lemma step_sendsVia (s : Bridge.t) (ev : Event) (h : nat) :
  sendsVia h (step s ev) = sendsVia h s
  \/ exists tm messageExists send resend,
       ev = Fire h messageExists send resend
       /\ timers s !! h = Some tm
       /\ due tm <= now s
       /\ sendsVia h (step s ev)
          = sendsVia h s
            ++ if has (deletedMessageIds s) (messageKey tm) then []
               else callsOf h tm messageExists send resend.
Proof.
  unfold sendsVia.
  destruct (step_outbox s ev)
    as [->|(h' & tm & ex & send & resend & -> & Htm & Hdue & ->)]; [by left|].
  rewrite filter_app.
  pose proof (callsOf_Forall h' tm ex send resend) as Hall.
  destruct (decide (h' = h)) as [->|Hne].
  - right. exists tm, ex, send, resend. do 3 (split; [done|]). f_equal.
    destruct (has _ _); [done|].
    induction Hall as [|c calls (_ & Hc & _) _ IH]; [done|].
    by rewrite filter_cons_True, IH.
  - left. rewrite <- (app_nil_r (filter _ (outbox s))) at 2. f_equal.
    destruct (has _ _); [done|].
    induction Hall as [|c calls (_ & Hc & _) _ IH]; [done|].
    rewrite filter_cons_False by congruence. done.
Qed.

Lemma run_oneDelivery (config : Config.t) (tr : bool) (evs : list Event)
    (h : nat) :
  oneDelivery (sendsVia h (run (Bridge.new config tr) evs)).
Proof.
  induction evs as [|ev evs IH] using rev_ind; [done|].
  rewrite run_snoc.
  destruct (step_sendsVia (run (Bridge.new config tr) evs) ev h)
    as [->|(tm & ex & send & resend & _ & Htm & _ & ->)]; [done|].
  rewrite (live_timer_unsent h tm) by (by apply run_wellFormed || done).
  cbn [app]. destruct (has _ _); [done|]. apply callsOf_oneDelivery.
Qed.

Lemma oneDelivery_deliveries (calls : list SendCall) :
  oneDelivery calls ->
  (length (filter (fun c => isDelivery c = true) calls) <= 1)%nat.
Proof.
  destruct calls as [|c1 [|c2 [|c3 calls]]]; cbn [oneDelivery];
    [intros _; rewrite filter_nil; simpl; lia| | |done].
  - intros _. rewrite filter_cons, filter_nil. destruct (decide _); simpl; lia.
  - intros (_ & (e & He & _) & _).
    rewrite filter_cons_False by (unfold isDelivery; by rewrite He).
    rewrite filter_cons, filter_nil. destruct (decide _); simpl; lia.
Qed.

Lemma step_nextTimer (s : Bridge.t) (ev : Event) :
  (nextTimer s <= nextTimer (step s ev))%nat.
Proof.
  destruct ev as [ctx tr|key|ms|h ex send resend|]; cbn [step].
  - destruct (handleUpdate_cases ctx tr s) as [->|(bm & txt & _ & _ & ->)];
      [done|cbn; lia].
  - by rewrite markMessageAsDeleted_nextTimer.
  - done.
  - unfold fire. destruct (timers s !! h) as [tm|]; [|done].
    destruct (due tm <=? now s); [|done].
    by rewrite timerCallback_nextTimer.
  - by rewrite stop_nextTimer.
Qed.

Lemma run_now (s : Bridge.t) (evs : list Event) :
  now (run s evs) = now s + elapsed evs.
Proof.
  induction evs as [|ev evs IH] using rev_ind; [cbn; lia|].
  rewrite run_snoc. destruct (step_constants (run s evs) ev) as (_ & _ & ->).
  rewrite IH. unfold elapsed. rewrite foldr_app. cbn [foldr].
  fold (elapsed evs).
  assert (forall t l, foldr (fun ev t => match ev with Elapse ms => ms + t | _ => t end) t l
                      = elapsed l + t) as Hfold.
  { intros t l. unfold elapsed. induction l as [|[] l IHl]; cbn; lia. }
  rewrite Hfold. destruct ev; lia.
Qed.

(** A message that has just been put in the queue: its timer stays as it
    is or goes, and it sends nothing, until the delay has passed. *)
Lemma run_queued_waits (key : str) (bm : BridgeMessage.t) (txt : str)
    (s : Bridge.t) (evs : list Event) :
  wellFormed s ->
  elapsed evs < timerDelay (messageDelayMs s) ->
  let s' := run (queueMessage key bm txt s) evs in
  sendsVia (nextTimer s) s' = []
  /\ wellFormed s'
  /\ (nextTimer s < nextTimer s')%nat
  /\ forall tm, timers s' !! nextTimer s = Some tm ->
       due tm = now s + timerDelay (messageDelayMs s).
Proof.
  intros Hwf. cbn zeta.
  induction evs as [|ev evs IH] using rev_ind; intros Hel.
  - cbn. split; [|split; [by apply queueMessage_wellFormed|split; [lia|]]].
    + destruct Hwf as (_ & _ & Hsent). unfold sendsVia.
      induction (outbox s) as [|c calls IHc]; [done|].
      rewrite filter_cons_False.
      * apply IHc. intros c' Hc'. apply Hsent. by right.
      * destruct (Hsent c) as [Hlt _]; [by left|]. lia.
    + intros tm. rewrite lookup_insert_eq. by intros [= <-].
  - assert (elapsed (evs ++ [ev])
            = elapsed evs + match ev with Elapse ms => ms | _ => 0 end) as Hsplit.
    { pose proof (run_now s (evs ++ [ev])) as H1.
      rewrite run_snoc in H1.
      destruct (step_constants (run s evs) ev) as (_ & _ & H2).
      rewrite H2, run_now in H1. lia. }
    destruct IH as (Hnone & Hwf' & Hlt & Hdue); [lia|].
    rewrite run_snoc. set (s' := run (queueMessage key bm txt s) evs) in *.
    split; [|split; [by apply step_wellFormed|split]].
    + destruct (step_sendsVia s' ev (nextTimer s))
        as [->|(tm & ex & send & resend & -> & Htm & Hnow & _)]; [done|].
      exfalso. apply Hdue in Htm. unfold s' in Hnow.
      rewrite run_now in Hnow. cbn in Hnow. cbn in Hsplit. lia.
    + pose proof (step_nextTimer s' ev). lia.
    + intros tm [Hold|(Heq & _)]%step_timers; [by apply Hdue|lia].
Qed.

Lemma run_deadlines (config : Config.t) (tr : bool) (evs : list Event) :
  let s := run (Bridge.new config tr) evs in
  (forall h tm, timers s !! h = Some tm ->
     due tm <= now s + timerDelay (messageDelayMs s))
  /\ (forall h1 h2 tm1 tm2,
        timers s !! h1 = Some tm1 -> timers s !! h2 = Some tm2 ->
        (h1 <= h2)%nat -> due tm1 <= due tm2).
Proof.
  cbn zeta. induction evs as [|ev evs [IHd IHo]] using rev_ind; [done|].
  rewrite run_snoc.
  pose proof (run_wellFormed config tr evs) as (Hfresh & _ & _).
  set (s := run (Bridge.new config tr) evs) in *.
  destruct (step_constants s ev) as (_ & Hdelay & Hnow).
  rewrite Hdelay, Hnow. split.
  - intros h tm [Hold|(_ & -> & _)]%step_timers; [|lia].
    specialize (IHd h tm Hold). lia.
  - intros h1 h2 tm1 tm2 [H1|(-> & -> & _)]%step_timers
      [H2|(-> & -> & _)]%step_timers Hle.
    + by apply (IHo h1 h2).
    + by apply (IHd h1).
    + apply Hfresh in H2. lia.
    + done.
Qed.

End Relay.

(** X12. Whatever the bridge has been through, every call it has made to
    send a text carries the key and the formatted text of a message of
    its history that it accepted: a message of the source chat with a
    text that is not blank and not from a bot, formatted by the
    processor. The bridge sends nothing else. *)
Theorem sends_come_from_accepted_updates (config : Config.t) (tr : bool)
    (history : list Bridge.Event) (c : Bridge.SendCall) :
  c ∈ Bridge.outbox (Bridge.run (Bridge.new config tr) history) ->
  relayedFrom config tr history (Bridge.forKey c) (Bridge.sentText c).
Proof. apply run_relayedFrom. Qed.
(** Message 5 arrives, waits and is sent. *)
Lemma sends_come_from_accepted_updates_witness :
  relayedFrom exampleConfig false
    [arrival 5; Bridge.Elapse 30000;
     Bridge.Fire 0 (Returns true) (Returns 900%Z) (Returns 0%Z)]
    (lit "-100:5") (lit "[From CN] Unknown: x").
Proof.
  apply (sends_come_from_accepted_updates exampleConfig false _
           (Bridge.mkSendCall (lit "-100:5") 0 (lit "[From CN] Unknown: x")
              (Some (lit "Markdown")) (Returns 900%Z))).
  vm_compute. left.
Defined.

(** X13. Everything the bridge sends is tagged. Whatever the bridge has
    been through, the text of every call it has made is the tag
    [From CN] followed by an author and a text, with nothing before the
    tag or with the line [Replying to message n] before it; in particular
    no empty text is ever sent. *)
Theorem sent_texts_are_tagged (config : Config.t) (tr : bool)
    (history : list Bridge.Event) (c : Bridge.SendCall) :
  c ∈ Bridge.outbox (Bridge.run (Bridge.new config tr) history) ->
  exists before rest,
    Bridge.sentText c = before ++ lit "[From CN] " ++ rest
    /\ (before = []
        \/ exists n, before = lit "Replying to message " ++ numToStr n
                              ++ MessageProcessor.newline).
Proof.
  intros Hc.
  destruct (proj2 (run_relayedFrom config tr history) c Hc)
    as (ctx & t & bm & _ & _ & _ & _ & Htext).
  unfold MessageProcessor.process in Htext. cbn [snd] in Htext.
  assert (Heq := f_equal (fun r => match r with
                                   | Returns x => x
                                   | Throws _ => []
                                   end) Htext).
  cbn beta iota in Heq. rewrite <- Heq.
  exists (MessageProcessor.replyPrefix (BridgeMessage.replyToId bm)).
  exists (orElse (BridgeMessage.author bm) (lit "Unknown") ++ lit ": "
          ++ MessageProcessor.outputText (processorOf config tr t)
               (BridgeMessage.text bm)
          ++ if MessageProcessor.translationShowOriginal
                  (processorOf config tr t)
                && MessageProcessor.translationEnabled (processorOf config tr t)
             then MessageProcessor.newline ++ lit "Original: "
                  ++ BridgeMessage.text bm
             else []).
  split.
  - f_equal. destruct (_ && _); [by rewrite <- !app_assoc|by rewrite app_nil_r].
  - unfold MessageProcessor.replyPrefix.
    destruct (BridgeMessage.replyToId bm) as [n|]; [|by left].
    destruct (truthyNum n); [right; by exists n|by left].
Qed.

(** The text sent for message 5. *)
Lemma sent_texts_are_tagged_witness :
  exists before rest,
    lit "[From CN] Unknown: x" = before ++ lit "[From CN] " ++ rest
    /\ (before = []
        \/ exists n, before = lit "Replying to message " ++ numToStr n
                              ++ MessageProcessor.newline).
Proof.
  apply (sent_texts_are_tagged exampleConfig false
           [arrival 5; Bridge.Elapse 30000;
            Bridge.Fire 0 (Returns true) (Returns 900%Z) (Returns 0%Z)]
           (Bridge.mkSendCall (lit "-100:5") 0 (lit "[From CN] Unknown: x")
              (Some (lit "Markdown")) (Returns 900%Z))).
  vm_compute. left.
Defined.

(** X14. The callback of a timer runs once. Whatever the bridge has been
    through, the calls made through one timer are none, or one with
    [parse_mode: 'Markdown'], or that one failed on a parse error followed
    by one without options for the same key and text; so at most one of
    them succeeded: a message put in the queue once is delivered at most
    once. *)
Theorem timer_delivers_at_most_once (config : Config.t) (tr : bool)
    (history : list Bridge.Event) (h : nat) :
  let calls := sendsVia h (Bridge.run (Bridge.new config tr) history) in
  oneDelivery calls
  /\ (length (filter (fun c => Bridge.isDelivery c = true) calls) <= 1)%nat.
Proof.
  cbn zeta. split; [apply run_oneDelivery|].
  apply oneDelivery_deliveries, run_oneDelivery.
Qed.

(** X15. Nothing is sent for a message before the delay of its timer has
    passed. From any state the bridge reaches, once a message is put in
    the queue, its timer makes no call as long as the time that has passed
    is less than the delay the timer runs with, whatever else happens
    meanwhile. That delay is [messageDelayMs] when it is between 1 and
    2^31 - 1 ms, and 1 ms otherwise; [messageDelayMs] is the configured
    delay, or 30000 when the configured one is 0. *)
Theorem nothing_sent_before_delay (config : Config.t) (tr : bool)
    (history : list Bridge.Event) (key : str) (bm : BridgeMessage.t)
    (txt : str) (evs : list Bridge.Event) :
  let s := Bridge.run (Bridge.new config tr) history in
  elapsed evs < timerDelay (Bridge.messageDelayMs s) ->
  Bridge.messageDelayMs s
  = (if truthyNum (Config.messageDelayMs config)
     then Config.messageDelayMs config else 30000%Z)
  /\ Bridge.timers (Bridge.queueMessage key bm txt s) !! Bridge.nextTimer s
     = Some (Bridge.mkTimer (Bridge.now s + timerDelay (Bridge.messageDelayMs s))
               key bm txt)
  /\ sendsVia (Bridge.nextTimer s)
       (Bridge.run (Bridge.queueMessage key bm txt s) evs) = [].
Proof.
  cbn zeta. intros Hel. split; [|split; [apply lookup_insert_eq|]].
  - by destruct (run_constants (Bridge.new config tr) history) as (_ & _ & ->).
  - by apply run_queued_waits; [apply run_wellFormed|].
Qed.

(** One millisecond short of the delay, the timer of message 5 does not
    send, though it is asked to fire. *)
Lemma nothing_sent_before_delay_witness :
  let s := Bridge.run (Bridge.new exampleConfig false) [] in
  Bridge.messageDelayMs s
  = (if truthyNum (Config.messageDelayMs exampleConfig)
     then Config.messageDelayMs exampleConfig else 30000%Z)
  /\ Bridge.timers (Bridge.queueMessage (lit "-100:5") exampleMessage
                   (lit "[From CN] Li Wei: x") s) !! Bridge.nextTimer s
  = Some (Bridge.mkTimer (Bridge.now s + timerDelay (Bridge.messageDelayMs s))
            (lit "-100:5") exampleMessage (lit "[From CN] Li Wei: x"))
  /\ sendsVia (Bridge.nextTimer s)
       (Bridge.run
          (Bridge.queueMessage (lit "-100:5") exampleMessage
             (lit "[From CN] Li Wei: x") s)
          [Bridge.Elapse 29999;
           Bridge.Fire 0 (Returns true) (Returns 900%Z) (Returns 0%Z)])
     = [].
Proof.
  apply (nothing_sent_before_delay exampleConfig false []).
  vm_compute. reflexivity.
Defined.

(** X16. The timers are due in the order they were set. In every state
    the bridge reaches, of two live timers the one set first is due no
    later than the other, and none is due later than one timer delay
    from now ([messageDelayMs] when it is between 1 and 2^31 - 1 ms, and
    1 ms otherwise): the delay is the same for all messages and the clock
    does not go back. *)
Theorem deadlines_in_queue_order (config : Config.t) (tr : bool)
    (history : list Bridge.Event) (h1 h2 : nat) (tm1 tm2 : Bridge.Timer) :
  let s := Bridge.run (Bridge.new config tr) history in
  Bridge.timers s !! h1 = Some tm1 ->
  Bridge.timers s !! h2 = Some tm2 ->
  (h1 <= h2)%nat ->
  Bridge.due tm1 <= Bridge.due tm2
  /\ Bridge.due tm2 <= Bridge.now s + timerDelay (Bridge.messageDelayMs s).
Proof.
  cbn zeta. intros H1 H2 Hle.
  destruct (run_deadlines config tr history) as [Hd Ho].
  split; [by apply (Ho h1 h2)|by apply (Hd h2)].
Qed.

(** Messages 1 and 2 arrive 10 ms apart. *)
Lemma deadlines_in_queue_order_witness :
  let s :=
    Bridge.run (Bridge.new exampleConfig false)
      [arrival 1; Bridge.Elapse 10; arrival 2] in
  (30000 : N) <= 30010
  /\ 30010 <= Bridge.now s + timerDelay (Bridge.messageDelayMs s).
Proof.
  cbn zeta.
  refine (deadlines_in_queue_order exampleConfig false
            [arrival 1; Bridge.Elapse 10; arrival 2] 0 1
            (Bridge.mkTimer 30000 (lit "-100:1")
               (BridgeMessage.mk 1 (lit "-100") (lit "Unknown") (lit "x")
                  None 0)
               (lit "[From CN] Unknown: x"))
            (Bridge.mkTimer 30010 (lit "-100:2")
               (BridgeMessage.mk 2 (lit "-100") (lit "Unknown") (lit "x")
                  None 0)
               (lit "[From CN] Unknown: x"))
            _ _ _).
  - vm_compute. reflexivity.
  - vm_compute. reflexivity.
  - lia.
Defined.

(** X17. The callback of a timer leaves nothing behind. When a live timer
    that is due fires, then whichever way its callback goes (the key is a
    tombstone, the message is gone, the send succeeds, the send fails),
    afterwards the timer is no longer live and no entry is pending for its
    key. *)
Theorem fire_clears_entry (handle : nat) (tm : Bridge.Timer)
    (messageExists : Result bool) (send resend : Result Z) (s : Bridge.t) :
  Bridge.timers s !! handle = Some tm ->
  Bridge.due tm <= Bridge.now s ->
  let s' := Bridge.fire handle messageExists send resend s in
  Bridge.timers s' !! handle = None
  /\ Bridge.pendingMessages s' !! Bridge.messageKey tm = None.
Proof.
  intros Htm Hdue%N.leb_le. cbn zeta. unfold Bridge.fire. rewrite Htm, Hdue.
  split.
  - destruct (Bridge.timers (Bridge.timerCallback _ _ _ _ _ _) !! handle) eqn:Hl;
      [|done].
    eapply lookup_weaken in Hl; [|apply timerCallback_timers].
    cbn in Hl. by rewrite lookup_delete_eq in Hl.
  - rewrite timerCallback_pending. apply lookup_delete_eq.
Qed.

(** The timer of message 5 fires and the send fails. *)
Lemma fire_clears_entry_witness :
  let s' :=
    Bridge.fire 0 (Returns true)
      (Throws (newError (lit "ETIMEDOUT"))) (Returns 0%Z)
      (Bridge.advance 30000 oneQueued) in
  Bridge.timers s' !! 0%nat = None
  /\ Bridge.pendingMessages s' !! lit "-100:5" = None.
Proof.
  refine (fire_clears_entry 0%nat
            (Bridge.mkTimer 30000 (lit "-100:5")
               (BridgeMessage.mk 5 (lit "-100") (lit "Unknown") (lit "x")
                  None 0)
               (lit "[From CN] Unknown: x"))
            (Returns true) (Throws (newError (lit "ETIMEDOUT")))
            (Returns 0%Z) (Bridge.advance 30000 oneQueued) _ _).
  - vm_compute. reflexivity.
  - vm_compute. discriminate.
Defined.

Section Remembered.
Import Bridge.

(** The key just delivered is in the processed set: when the set is cut
    back, the key is its newest member. *)
Lemma delivered_remembers (key : str) (s : Bridge.t) :
  sizeOf (processedMessageIds s) <= 1000 ->
  key ∈ processedMessageIds (delivered key s).
Proof.
  intros Hbound. rewrite delivered_processed.
  destruct (1000 <? sizeOf (add (processedMessageIds s) key)) eqn:Hover.
  - apply N.ltb_lt in Hover. unfold add in *.
    destruct (has (processedMessageIds s) key); [lia|].
    unfold sliceLast. rewrite length_app. cbn [length].
    replace (length (processedMessageIds s) + 1 - N.to_nat 1000)%nat
      with (length (processedMessageIds s) - 999)%nat by lia.
    rewrite drop_app_le by lia. apply elem_of_app. right. by left.
  - apply elem_of_add. by left.
Qed.

End Remembered.

(** X22. A delivery is remembered. In a state the bridge reaches, when a
    timer fires and its send succeeds, the key of the message is in the
    processed set afterwards (it is the newest member, which the cut to
    1000 keys never removes), so an update that brings the same message
    again is skipped: the bridge stays as it is. *)
Theorem delivery_is_remembered (config : Config.t) (tr : bool)
    (history : list Bridge.Event) (handle : nat) (tm : Bridge.Timer)
    (messageExists : Result bool) (send resend : Result Z) :
  let s := Bridge.run (Bridge.new config tr) history in
  Bridge.timers s !! handle = Some tm ->
  Bridge.due tm <= Bridge.now s ->
  Bridge.messageKey tm ∉ Bridge.deletedMessageIds s ->
  messageExists <> Returns false ->
  sendSucceeds send resend = true ->
  let s' := Bridge.fire handle messageExists send resend s in
  Bridge.messageKey tm ∈ Bridge.processedMessageIds s'
  /\ forall ctx t bm,
       Bridge.normalizeMessage s' ctx = Some bm ->
       Bridge.keyOf bm = Bridge.messageKey tm ->
       Bridge.handleUpdate ctx t s' = s'.
Proof.
  cbn zeta. intros Htm Hdue Hkey Hex Hsend.
  destruct (fire_delivers handle tm messageExists send resend _
              Htm Hdue Hkey Hex Hsend) as (s0 & -> & Hp & _).
  assert (Bridge.messageKey tm
          ∈ Bridge.processedMessageIds (Bridge.delivered (Bridge.messageKey tm) s0))
    as Hin.
  { apply delivered_remembers. rewrite Hp. apply run_processed_bound. }
  split; [done|].
  intros ctx t bm Hbm Hsame. unfold Bridge.handleUpdate.
  rewrite Hbm, Hsame. by apply has_true in Hin as ->.
Qed.

(** Message 5 is delivered and arrives again. *)
Lemma delivery_is_remembered_witness :
  let s' :=
    Bridge.fire 0 (Returns true) (Returns 900%Z) (Returns 0%Z)
      (Bridge.run (Bridge.new exampleConfig false)
         [arrival 5; Bridge.Elapse 30000]) in
  lit "-100:5" ∈ Bridge.processedMessageIds s'
  /\ forall ctx t bm,
       Bridge.normalizeMessage s' ctx = Some bm ->
       Bridge.keyOf bm = lit "-100:5" ->
       Bridge.handleUpdate ctx t s' = s'.
Proof.
  refine (delivery_is_remembered exampleConfig false
            [arrival 5; Bridge.Elapse 30000] 0
            (Bridge.mkTimer 30000 (lit "-100:5")
               (BridgeMessage.mk 5 (lit "-100") (lit "Unknown") (lit "x")
                  None 0)
               (lit "[From CN] Unknown: x"))
            (Returns true) (Returns 900%Z) (Returns 0%Z) _ _ _ _ _).
  - vm_compute. reflexivity.
  - vm_compute. discriminate.
  - vm_compute. intros Hin. by apply elem_of_nil in Hin.
  - discriminate.
  - reflexivity.
Defined.

(* ----------------------------------------------------------------- *)
(** ** The gateway without an API key *)
(* ----------------------------------------------------------------- *)

Section Keyless.
Context `{Host}.

Lemma google_translate_keyless (config : Config.t) (api : GoogleTranslator.Api)
    (text sl tl : str) :
  Config.googleTranslateApiKey config = [] ->
  GoogleTranslator.translate (GoogleTranslator.new config) api text sl tl
  = Throws (newError (lit "GOOGLE_TRANSLATE_API_KEY is not set")).
Proof. intros Hkey. unfold GoogleTranslator.translate. cbn. by rewrite Hkey. Qed.

End Keyless.

(** X18. Without an API key the relay forwards the source text. When the
    key is not set and the factory returns a gateway, every call of the
    gateway fails with [GOOGLE_TRANSLATE_API_KEY is not set] (the primary
    and the fallback are both Google backends with the same missing key),
    and the processor, for every message, gives the text it gives when
    translation fails: the source text after the author. No message is
    lost for want of a key. *)
Theorem keyless_gateway_relays_source_text `{Host} (config : Config.t)
    (api1 api2 : GoogleTranslator.Api) (gateway : CompositeTranslator.t) :
  Config.googleTranslateApiKey config = [] ->
  CompositeTranslator.createTranslator config api1 api2 = Returns (Some gateway) ->
  (forall text sl tl,
     CompositeTranslator.asTranslator gateway text sl tl
     = Throws (newError (lit "GOOGLE_TRANSLATE_API_KEY is not set")))
  /\ (forall bm,
        MessageProcessor.outputText
          (MessageProcessor.mk (Some (CompositeTranslator.asTranslator gateway))
             (Some config))
          (BridgeMessage.text bm)
        = BridgeMessage.text bm).
Proof.
  intros Hkey Hcreate.
  assert (forall text sl tl,
            CompositeTranslator.asTranslator gateway text sl tl
            = Throws (newError (lit "GOOGLE_TRANSLATE_API_KEY is not set")))
    as Hfail.
  { intros text sl tl. unfold CompositeTranslator.createTranslator in Hcreate.
    destruct (negb (Config.translationEnabled config)); [done|].
    destruct (bool_decide (toLowerCase _ = lit "google")); [|done].
    injection Hcreate as <-.
    unfold CompositeTranslator.asTranslator, CompositeTranslator.translate.
    cbn [CompositeTranslator.primary CompositeTranslator.fallback].
    rewrite google_translate_keyless by done.
    destruct (bool_decide (toLowerCase _ = lit "google")); [|done].
    by rewrite google_translate_keyless. }
  split; [done|].
  intros bm. unfold MessageProcessor.outputText.
  destruct (MessageProcessor.translationEnabled _); [|done].
  cbn [MessageProcessor.translator]. by rewrite Hfail.
Qed.

(** The gateway the factory builds for the configuration without a key. *)
Lemma keyless_gateway_relays_source_text_witness :
  let api : GoogleTranslator.Api :=
    fun _ q _ _ => GoogleTranslator.Parsed (Some q) in
  let google :=
    GoogleTranslator.translate (GoogleTranslator.new keylessConfig) api in
  let gateway := CompositeTranslator.mk (Some google) (Some google) in
  (forall text sl tl,
     CompositeTranslator.asTranslator gateway text sl tl
     = Throws (newError (lit "GOOGLE_TRANSLATE_API_KEY is not set")))
  /\ (forall bm,
        MessageProcessor.outputText
          (MessageProcessor.mk (Some (CompositeTranslator.asTranslator gateway))
             (Some keylessConfig))
          (BridgeMessage.text bm)
        = BridgeMessage.text bm).
Proof.
  exact (@keyless_gateway_relays_source_text asciiHost keylessConfig
           (fun _ q _ _ => GoogleTranslator.Parsed (Some q))
           (fun _ q _ _ => GoogleTranslator.Parsed (Some q))
           _ eq_refl eq_refl).
Defined.

(* ----------------------------------------------------------------- *)
(** ** The Google backend: a translation is not empty *)
(* ----------------------------------------------------------------- *)

Section NotEmpty.
Import GoogleTranslator.

Lemma translateChunk_not_empty (x : Exchange) (r : str) :
  translateChunk x = Returns r -> r <> [].
Proof.
  destruct x as [e|status body|m|[t|]]; cbn; try done.
  destruct t; cbn; [done|]. by intros [= <-].
Qed.

Lemma rendered_not_empty (api : Api) (sl tl : str) (segs : list Segment)
    (outs : list str) :
  Forall isRun segs -> Forall2 (rendered api sl tl) segs outs ->
  Forall (fun out => out <> []) outs.
Proof.
  intros Hruns Hall. induction Hall as [|seg out segs outs Hr _ IH]; [done|].
  inversion Hruns as [|? ? [Hne _] Hruns']; subst. constructor; [|by apply IH].
  unfold rendered in Hr. destruct (isChinese seg).
  - destruct Hr as [n Hr]. by eapply translateChunk_not_empty.
  - by rewrite Hr.
Qed.

End NotEmpty.

(** X19. A translation that succeeds is empty only when the text is. The
    backend returns a blank text and a text without Chinese as they are;
    otherwise every run of the text gives a piece of the result that is
    not empty (an empty answer of the API is an error, not a
    translation), and there are as many pieces as runs. *)
Theorem translate_keeps_text_present (self : GoogleTranslator.t)
    (api : GoogleTranslator.Api) (t sourceLang targetLang r : str) :
  GoogleTranslator.translate self api t sourceLang targetLang = Returns r ->
  (r = [] <-> t = [])
  /\ (GoogleTranslator.containsChinese t = true ->
        exists outs,
          r = concat outs
          /\ length outs = length (GoogleTranslator.splitIntoSegments t)
          /\ Forall (fun out => out <> []) outs).
Proof.
  unfold GoogleTranslator.translate.
  destruct (negb (truthy (GoogleTranslator.apiKey self))); [done|].
  rewrite orElse_nil_r.
  destruct (truthy (trim t)) eqn:Hblank; cbn [negb].
  2:{ intros [= <-]. split; [done|]. intros Hch.
      apply containsChinese_not_blank in Hch. congruence. }
  destruct (GoogleTranslator.containsChinese t) eqn:Hch; cbn [negb].
  2:{ intros [= <-]. done. }
  destruct (GoogleTranslator.translateSegments _ _ _ _ _) as [outs|e] eqn:Hsegs;
    [|done].
  cbn. intros [= <-]. rewrite join_nil_concat.
  apply translateSegments_returns in Hsegs.
  destruct (splitIntoSegments_runs t) as (Hcat & Hruns & _).
  pose proof (rendered_not_empty _ _ _ _ _ Hruns Hsegs) as Hne.
  assert (t <> []) as Ht.
  { intros ->. by cbn in Hblank. }
  split; [|intros _; exists outs; split; [done|split; [|done]];
           symmetry; by eapply Forall2_length].
  split; [|done]. intros Hnil. exfalso.
  destruct Hsegs as [|seg out segs outs' _ _].
  - by rewrite <- Hcat in Ht.
  - inversion Hne; subst. cbn in Hnil. by apply app_eq_nil in Hnil as [? _].
Qed.

(** A text of two runs, translated by an API that answers [Hello]. *)
Lemma translate_keeps_text_present_witness :
  let api : GoogleTranslator.Api :=
    fun _ _ _ _ => GoogleTranslator.Parsed (Some (lit "Hello")) in
  let t := [20320; 22909] ++ lit " Bob" in
  (lit "Hello Bob" = [] <-> t = [])
  /\ (GoogleTranslator.containsChinese t = true ->
        exists outs,
          lit "Hello Bob" = concat outs
          /\ length outs = length (GoogleTranslator.splitIntoSegments t)
          /\ Forall (fun out => out <> []) outs).
Proof.
  cbn zeta.
  refine (translate_keeps_text_present (GoogleTranslator.new exampleConfig)
            (fun _ _ _ _ => GoogleTranslator.Parsed (Some (lit "Hello")))
            ([20320; 22909] ++ lit " Bob") (lit "zh") (lit "en")
            (lit "Hello Bob") _).
  vm_compute. reflexivity.
Defined.

(* ----------------------------------------------------------------- *)
(** ** The settings read from the environment *)
(* ----------------------------------------------------------------- *)

Section Settings.
Context `{Host} `{Config.Numbers}.

Lemma orDefault_truthy (v : option str) (d : str) :
  d <> [] -> truthy (orDefault v d) = true.
Proof.
  intros Hd. destruct v as [[|c s]|]; cbn; try done; by apply truthy_true.
Qed.

Lemma truthyOpt_true (v : option str) :
  truthyOpt v = true <-> exists s, v = Some s /\ s <> [].
Proof.
  destruct v as [[|c s]|]; cbn; split; try done.
  - by intros (s & [= <-] & ?).
  - intros _. by eexists.
  - by intros (s & ? & _).
Qed.

(** What [validate] comes to for an object whose provider is not empty. *)
Lemma validate_cases (self : Config.Loaded.t) :
  Config.Loaded.translationProvider self <> [] ->
  (Config.validate self = Returns ()
   <-> exists token source destination,
         Config.Loaded.botToken self = Some token /\ token <> []
         /\ Config.Loaded.sourceChatId self = Some source
         /\ source <> [] /\ Config.isValidChatId source = true
         /\ Config.Loaded.destinationChatId self = Some destination
         /\ destination <> [] /\ Config.isValidChatId destination = true)
  /\ Config.validate self
     <> Throws (newError (lit "TRANSLATION_PROVIDER must be set when translation is enabled")).
Proof.
  intros Hprovider%truthy_true. unfold Config.validate.
  rewrite Hprovider, andb_false_r.
  set (missing := filter _ _).
  assert (missing = []
          <-> truthyOpt (Config.Loaded.botToken self) = true
              /\ truthyOpt (Config.Loaded.sourceChatId self) = true
              /\ truthyOpt (Config.Loaded.destinationChatId self) = true)
    as Hmissing.
  { unfold missing, Config.required. rewrite !filter_cons, filter_nil.
    cbn [snd].
    destruct (truthyOpt (Config.Loaded.botToken self)),
      (truthyOpt (Config.Loaded.sourceChatId self)),
      (truthyOpt (Config.Loaded.destinationChatId self)); cbn;
      (split; [try done|by intros (? & ? & ?)]). }
  rewrite !truthyOpt_true in Hmissing.
  destruct missing as [|m ms].
  - destruct Hmissing as [((token & Ht & ?) & (source & Hs & ?)
                           & (destination & Hd & ?)) _]; [done|].
    rewrite Hs, Hd. cbn [sizeOf length N.of_nat N.ltb N.compare default from_option id].
    destruct (Config.isValidChatId source) eqn:Hvs; cbn [negb].
    2:{ split; [|intros Heq; vm_compute in Heq; discriminate Heq].
        split; [done|].
        intros (? & ? & ? & ? & ? & [= <-] & ? & ? & ? & ? & ?). congruence. }
    destruct (Config.isValidChatId destination) eqn:Hvd; cbn [negb].
    2:{ split; [|intros Heq; vm_compute in Heq; discriminate Heq].
        split; [done|].
        intros (? & ? & ? & ? & ? & ? & ? & ? & [= <-] & ? & ?). congruence. }
    split; [|done]. split; [|done]. intros _. by exists token, source, destination.
  - replace (0 <? sizeOf (m :: ms)) with true by done.
    split.
    + split; [done|].
      intros (token & source & destination & ? & ? & ? & ? & _ & ? & ? & _).
      destruct Hmissing as [_ Hall].
      assert (m :: ms = []) as Hnil; [|done].
      apply Hall.
      split; [by exists token|]. split; [by exists source|by exists destination].
    + intros Heq.
      assert (Hhead := f_equal (fun r => match r with
                                         | Throws e => head (message e)
                                         | Returns _ => None
                                         end) Heq).
      vm_compute in Hhead. discriminate Hhead.
Qed.

End Settings.

(** X20. [validate] names the required variables that are missing. When
    one of the bot token, the source chat and the destination chat is not
    set or is empty, [validate] throws before any other check, and its
    message, which starts with [Missing required environment variables:],
    names a variable exactly when that variable is missing. *)
Theorem validate_names_missing_variables `{Config.Numbers}
    (self : Config.Loaded.t) :
  (exists r, r ∈ Config.required self /\ truthyOpt r.2 = false) ->
  exists msg,
    Config.validate self = Throws (newError msg)
    /\ startsWith msg (lit "Missing required environment variables: ") = true
    /\ forall r, r ∈ Config.required self ->
         (includes msg r.1 = true <-> truthyOpt r.2 = false).
Proof.
  intros (r & Hr & Hmiss). unfold Config.validate.
  unfold Config.required in *.
  destruct (truthyOpt (Config.Loaded.botToken self)) eqn:H1,
    (truthyOpt (Config.Loaded.sourceChatId self)) eqn:H2,
    (truthyOpt (Config.Loaded.destinationChatId self)) eqn:H3.
  1:{ exfalso.
      repeat (apply elem_of_cons in Hr as [->|Hr];
              [cbn in Hmiss; congruence|]).
      by apply elem_of_nil in Hr. }
  all: rewrite !filter_cons, filter_nil; cbn [snd]; rewrite H1, H2, H3;
    cbn -[lit join includes startsWith];
    eexists; (split; [reflexivity|]); (split; [by vm_compute|]);
    intros r' Hr';
    repeat (apply elem_of_cons in Hr' as [->|Hr'];
            [cbn [fst snd]; rewrite ?H1, ?H2, ?H3; by vm_compute|]);
    by apply elem_of_nil in Hr'.
Qed.

(** The bot token is missing, the two chats are set. *)
Lemma validate_names_missing_variables_witness :
  exists msg,
    @Config.validate integerNumbers tokenlessSettings = Throws (newError msg)
    /\ startsWith msg (lit "Missing required environment variables: ") = true
    /\ forall r, r ∈ Config.required tokenlessSettings ->
         (includes msg r.1 = true <-> truthyOpt r.2 = false).
Proof.
  apply (@validate_names_missing_variables integerNumbers).
  exists (lit "TELEGRAM_BOT_TOKEN", None). split; [left|reflexivity].
Defined.

(** X21. Whether the constructor succeeds depends on the three required
    variables only: it returns exactly when the bot token, the source chat
    and the destination chat are set and not empty and both chats are an
    [@username] or a finite number. The translation variables never make
    it fail: the provider falls back to [google] when it is not set, so
    the check [TRANSLATION_PROVIDER must be set] of [validate] cannot
    fire. *)
Theorem config_new_succeeds_iff `{Host} `{Config.Numbers} (env : Config.Env) :
  ((exists self, Config.new env = Returns self)
   <-> exists token source destination,
         env !! "TELEGRAM_BOT_TOKEN"%string = Some token /\ token <> []
         /\ env !! "TELEGRAM_SOURCE_CHAT_ID"%string = Some source
         /\ source <> [] /\ Config.isValidChatId source = true
         /\ env !! "TELEGRAM_DESTINATION_CHAT_ID"%string = Some destination
         /\ destination <> [] /\ Config.isValidChatId destination = true)
  /\ Config.new env
     <> Throws (newError (lit "TRANSLATION_PROVIDER must be set when translation is enabled"))
  /\ forall self, Config.new env = Returns self ->
       Config.Loaded.translationProvider self <> []
       /\ Config.Loaded.translationFallbackProvider self <> [].
Proof.
  unfold Config.new.
  match goal with |- context [Config.validate ?x] => set (self := x) end.
  assert (Config.Loaded.translationProvider self <> []
          /\ Config.Loaded.translationFallbackProvider self <> []) as [Hp Hf].
  { split; apply truthy_true, orDefault_truthy; done. }
  destruct (validate_cases self Hp) as [Hiff Hnot].
  change (env !! "TELEGRAM_BOT_TOKEN"%string) with (Config.Loaded.botToken self).
  change (env !! "TELEGRAM_SOURCE_CHAT_ID"%string)
    with (Config.Loaded.sourceChatId self).
  change (env !! "TELEGRAM_DESTINATION_CHAT_ID"%string)
    with (Config.Loaded.destinationChatId self).
  rewrite <- Hiff. clearbody self.
  destruct (Config.validate self) as [[]|e]; cbn.
  - split; [split; [done|by eexists]|]. split; [done|]. by intros ? [= <-].
  - split; [split; [by intros [? ?]|done]|]. split; [congruence|done].
Qed.
